(** * Twitch-Chat-Emote-Analyzer: the backend, embedded and verified

  A shallow embedding of [src/backend]: the emote directory
  ([emote_handler.py]), the sentiment catalog and scorer
  ([nlp_processor.py]), the subscriber registry ([websocket_manager.py]),
  the per-channel bots ([twitch_irc.py]) and the HTTP/WebSocket endpoints
  ([main.py]).

  Conventions.
  - A Python [str] is a Rocq [string] whose characters are the code points
    0..255; the [str] methods below follow CPython on that range.
  - A [dict] read only by key is a [gmap]; a Python list is a [list].
  - Objects with identity (WebSockets, TwitchBot instances) are numbers;
    the bots live in a store indexed by their reference.
  - A coroutine is cut at its [await]s: the code between two awaits is one
    atomic step, as under the asyncio event loop. *)

From Stdlib Require Import ZArith Ascii String.
From stdpp Require Import gmap strings list fin_maps sorting.

(** ** Python built-ins used by the backend *)
Module Py.
Local Open Scope Z_scope.

(** The result of a call that may raise. *)
Inductive outcome (A : Type) : Type :=
| Returned (a : A)
| Raised.
Arguments Returned {A} a.
Arguments Raised {A}.

Definition ord (c : ascii) : N := N_of_ascii c.
Definition chr (n : N) : ascii := ascii_of_N n.

(** [str.isspace] on one code point below 256. *)
Definition isspace (c : ascii) : bool :=
  let n := ord c in
  ((9 <=? n) && (n <=? 13) || (28 <=? n) && (n <=? 32)
   || (n =? 133) || (n =? 160))%N.

(** The six characters CPython's [Py_ISSPACE] accepts. *)
Definition c_isspace (c : ascii) : bool :=
  let n := ord c in ((9 <=? n) && (n <=? 13) || (n =? 32))%N.

(** [str.lower] on one code point below 256: A-Z and the Latin-1 capitals
    (all of 0xC0..0xDE but the multiplication sign) move up by 32. *)
Definition lower_char (c : ascii) : ascii :=
  let n := ord c in
  if ((65 <=? n) && (n <=? 90)
      || (192 <=? n) && (n <=? 222) && negb (n =? 215))%N
  then chr (n + 32) else c.

Fixpoint lower (s : string) : string :=
  match s with
  | EmptyString => EmptyString
  | String c s' => String (lower_char c) (lower s')
  end.

(** Truthiness of a [str]. *)
Definition truthy (s : string) : bool :=
  match s with EmptyString => false | _ => true end.


Fixpoint lstrip_by (p : ascii → bool) (s : string) : string :=
  match s with
  | EmptyString => EmptyString
  | String c s' => if p c then lstrip_by p s' else s
  end.

Definition strip_by (p : ascii → bool) (s : string) : string :=
  String.rev (lstrip_by p (String.rev (lstrip_by p s))).

(** [s.strip()] *)
Definition strip : string → string := strip_by isspace.

(** [s.split()]: maximal runs of non-whitespace, in order. [cur] holds the
    run being read, reversed. *)
Fixpoint split_go (cur : string) (s : string) : list string :=
  match s with
  | EmptyString =>
      if truthy cur then [String.rev cur] else []
  | String c s' =>
      if isspace c
      then (if truthy cur then [String.rev cur] else []) ++ split_go "" s'
      else split_go (String c cur) s'
  end.

Definition split : string → list string := split_go "".

(** [s.split(sep)] for a one-character separator: never empty, and empty
    pieces are kept. *)
Fixpoint split_on (sep : ascii) (s : string) : list string :=
  match s with
  | EmptyString => [""]
  | String c s' =>
      if Ascii.eqb c sep then "" :: split_on sep s'
      else match split_on sep s' with
           | w :: ws => String c w :: ws
           | [] => [String c ""]
           end
  end.

(** [a, b = s.split(sep, 1)]: [None] stands for the [ValueError] of the
    unpacking when [sep] does not occur. *)
Fixpoint split_once (sep : ascii) (s : string) : option (string * string) :=
  match s with
  | EmptyString => None
  | String c s' =>
      if Ascii.eqb c sep then Some ("", s')
      else match split_once sep s' with
           | Some (a, b) => Some (String c a, b)
           | None => None
           end
  end.

Fixpoint drop_chars (n : nat) (s : string) : string :=
  match n, s with
  | O, _ => s
  | S n', String _ s' => drop_chars n' s'
  | S _, EmptyString => EmptyString
  end.

Fixpoint take_chars (n : nat) (s : string) : string :=
  match n, s with
  | S n', String c s' => String c (take_chars n' s')
  | _, _ => EmptyString
  end.

(** A slice bound, clamped as Python does. *)
Definition clamp (len i : Z) : Z :=
  if i <? 0 then Z.max (i + len) 0 else Z.min i len.

(** [s[start:stop]] *)
Definition slice (s : string) (start stop : Z) : string :=
  let len := Z.of_nat (String.length s) in
  let a := clamp len start in
  let b := clamp len stop in
  take_chars (Z.to_nat (b - a)) (drop_chars (Z.to_nat a) s).

Definition digit (c : ascii) : option Z :=
  let n := ord c in
  if ((48 <=? n) && (n <=? 57))%N then Some (Z.of_N (n - 48)) else None.

(** Decimal digits, with single underscores allowed between digits. *)
Fixpoint int_digits (s : string) (acc : Z) (after_digit : bool) : option Z :=
  match s with
  | EmptyString => if after_digit then Some acc else None
  | String c s' =>
      if Ascii.eqb c "_"
      then (if after_digit then int_digits s' acc false else None)
      else match digit c with
           | Some d => int_digits s' (10 * acc + d) true
           | None => None
           end
  end.

Fixpoint all_chars (p : ascii → bool) (s : string) : bool :=
  match s with
  | EmptyString => true
  | String c s' => p c && all_chars p s'
  end.

Fixpoint map_chars (f : ascii → ascii) (s : string) : string :=
  match s with
  | EmptyString => EmptyString
  | String c s' => String (f c) (map_chars f s')
  end.

Fixpoint count_digits (s : string) : N :=
  match s with
  | EmptyString => 0%N
  | String c s' =>
      match digit c with
      | Some _ => N.succ (count_digits s')
      | None => count_digits s'
      end
  end.

(** [sys.int_info.default_max_str_digits] *)
Definition int_max_str_digits : N := 4300.

(** The digits after the sign: a literal with more than
    [int_max_str_digits] digits is refused. *)
Definition int_literal (r : string) : option Z :=
  if (int_max_str_digits <? count_digits r)%N then None
  else int_digits r 0 false.

(** [int(s)]; [None] stands for [ValueError]. An ASCII string goes to the
    parser as it is; in any other string the code points below 127 are kept
    and, of the others, the Unicode spaces are turned into blanks (the rest
    are no digits and end the parse). The parser skips C white space on both
    ends and reads an optional sign and the digits. *)
Definition int (s : string) : option Z :=
  let t :=
    if all_chars (λ c, (ord c <? 128)%N) s then s
    else map_chars (λ c, if (127 <=? ord c)%N && isspace c
                         then " "%char else c) s in
  match strip_by c_isspace t with
  | String "+" r => int_literal r
  | String "-" r => Z.opp <$> int_literal r
  | r => int_literal r
  end.

(** [{**a, **b}]: the entries of [b] overwrite those of [a]. *)
Definition dict_update {V} (a b : gmap string V) : gmap string V := b ∪ a.

(** [l.remove(x)]: drops the first occurrence; [None] stands for the
    [ValueError] raised when there is none. *)
Fixpoint list_remove `{EqDecision A} (x : A) (l : list A) : option (list A) :=
  match l with
  | [] => None
  | y :: l' =>
      if decide (x = y) then Some l'
      else (λ r, y :: r) <$> list_remove x l'
  end.

(** The keys of a dictionary are all in lower case. *)
Definition lowercase_keys {V} (m : gmap string V) : Prop :=
  ∀ k v, m !! k = Some v → lower k = k.

End Py.

(** ** Floats and the external collaborators

  Sentiment scores are Python floats. The backend only stores them, rounds
  them, compares them with [0.0] and reads them from text, so a float is any
  type with these four operations. *)
Class PyFloat := {
  float : Type;
  float_zero : float;                      (* 0.0 *)
  float_nonzero : float → bool;            (* x != 0.0 *)
  float_round3 : float → float;            (* round(x, 3) *)
  float_of_str : string → option float;    (* float(s); None is ValueError *)
}.

(** [vader_analyzer.polarity_scores(text)['compound']]; [None] when the
  analyzer raises. *)
Class Vader `{PyFloat} := {
  polarity_compound : string → option float;
}.

(** What [extract_keywords] uses of NLTK; [None] is a raised exception. *)
Class Nltk := {
  NLTK_DATA_READY : bool;
  stop_words : gset string;
  pos_tag : list string → option (list (string * string));
  lemmatize : string → option string;
}.

(** The answers of the remote services behind [emote_handler.py]. Each
  [get_*] function of the source catches every exception and returns a
  dictionary, so an answer is the dictionary the function ends with. *)
Class EmoteApis := {
  (* the id in the Helix answer for (client id, token, login); None when
     the request fails or the answer lists no user *)
  helix_user_id : string → string → string → option string;
  (* what get_ffz_emotes returns for a lower-cased channel name *)
  ffz_room : string → gmap string string;
  (* what get_7tv_emotes returns for a non-empty user id *)
  seventv_user : string → gmap string string;
  (* what get_7tv_global_emotes returns *)
  seventv_global : gmap string string;
}.

(** ** nlp_processor.py *)
Module nlp_processor.
Section nlp_processor.
Context `{Vader} `{!Nltk}.

(** A row of [csv.DictReader]: [row.get('EmoteName')] and
    [row.get('SentimentScore')]. *)
Definition csv_row : Type := option string * option string.

Definition load_row (scores : gmap string float) (row : csv_row)
  : gmap string float :=
  match row with
  | (Some emote_name, Some sentiment_score) =>
      if Py.truthy emote_name && Py.truthy sentiment_score then
        match float_of_str sentiment_score with
        | Some x => <[emote_name := x]> scores
        | None => scores
        end
      else scores
  | _ => scores
  end.

(** [load_emote_sentiment_scores]: [csv] is [None] when the file does not
    exist, else the rows read from it. The global dictionary is updated in
    place. *)
Definition load_emote_sentiment_scores (csv : option (list csv_row))
    (emote_sentiment_scores : gmap string float) : gmap string float :=
  match csv with
  | Some rows => foldl load_row emote_sentiment_scores rows
  | None => emote_sentiment_scores
  end.

(** [reload_emote_sentiment_scores]: clears the dictionary, loads it again
    and returns its new length. *)
Definition reload_emote_sentiment_scores (csv : option (list csv_row))
    (emote_sentiment_scores : gmap string float)
  : gmap string float * nat :=
  let cleared : gmap string float := ∅ in
  let reloaded := load_emote_sentiment_scores csv cleared in
  (reloaded, size reloaded).

(** Step 1 of [analyze_sentiment]: tokens found in the CSV catalog, in
    their own case or lower-cased, take the catalog's score. *)
Definition csv_scores (emote_sentiment_scores : gmap string float)
    (words_in_text : list string) : gmap string float :=
  foldl (λ word_scores word,
           match emote_sentiment_scores !! word with
           | Some x => <[word := x]> word_scores
           | None =>
               match emote_sentiment_scores !! Py.lower word with
               | Some x => <[word := x]> word_scores
               | None => word_scores
               end
           end) ∅ words_in_text.

(** Step 3: VADER on each token that has no score yet. The flag is [false]
    when the analyzer raised; the scores stored before that are kept. *)
Fixpoint vader_scores (words_in_text : list string)
    (word_scores : gmap string float) : gmap string float * bool :=
  match words_in_text with
  | [] => (word_scores, true)
  | word :: rest =>
      if bool_decide (word_scores !! word = None
                      ∧ word_scores !! Py.lower word = None) then
        match polarity_compound word with
        | None => (word_scores, false)
        | Some c =>
            vader_scores rest
              (if float_nonzero c
               then <[word := float_round3 c]> word_scores
               else word_scores)
        end
      else vader_scores rest word_scores
  end.

Definition analyze_sentiment (emote_sentiment_scores : gmap string float)
    (text : string) : option float * gmap string float :=
  if negb (Py.truthy text) then (Some float_zero, ∅)
  else
    let words_in_text := Py.split text in
    let word_scores := csv_scores emote_sentiment_scores words_in_text in
    match polarity_compound text with
    | None => (None, word_scores)
    | Some c =>
        let compound_score := float_round3 c in
        match vader_scores words_in_text word_scores with
        | (word_scores', true) => (Some compound_score, word_scores')
        | (word_scores', false) => (None, word_scores')
        end
    end.

(** [str.isalpha] on code points below 256. *)
Definition isalpha_char (c : ascii) : bool :=
  let n := Py.ord c in
  ((65 <=? n) && (n <=? 90) || (97 <=? n) && (n <=? 122)
   || (n =? 170) || (n =? 181) || (n =? 186)
   || (192 <=? n) && (n <=? 214) || (216 <=? n) && (n <=? 246)
   || (248 <=? n))%N.

Definition isalpha (s : string) : bool :=
  Py.truthy s && Py.all_chars isalpha_char s.

Definition KEYWORD_POS_TAGS : list string := ["NN"; "NNS"; "NNP"; "NNPS"].

(** [FreqDist(keywords)]: the distinct keywords in order of first
    occurrence, each with its count. *)
Fixpoint freq_add (kw : string) (fd : list (string * nat))
  : list (string * nat) :=
  match fd with
  | [] => [(kw, 1)]
  | (k, n) :: fd' =>
      if decide (k = kw) then (k, S n) :: fd' else (k, n) :: freq_add kw fd'
  end.

Definition FreqDist (keywords : list string) : list (string * nat) :=
  foldl (λ fd kw, freq_add kw fd) [] keywords.

(** Stable insertion by decreasing count: an entry goes after the entries
    with the same count that precede it. *)
Fixpoint insert_by_count (e : string * nat) (l : list (string * nat))
  : list (string * nat) :=
  match l with
  | [] => [e]
  | e' :: l' =>
      if (e'.2 <? e.2) then e :: l else e' :: insert_by_count e l'
  end.

Definition most_common (n : nat) (fd : list (string * nat))
  : list (string * nat) :=
  take n (foldl (λ sorted e, insert_by_count e sorted) [] fd).

Definition extract_keywords (text : string) (max_keywords : nat)
  : list string :=
  if negb NLTK_DATA_READY then []
  else
    let tokens := Py.lower <$> filter (λ w, isalpha w = true) (Py.split text) in
    let filtered_tokens := filter (λ w, w ∉ stop_words) tokens in
    match pos_tag filtered_tokens with
    | None => []
    | Some tagged_tokens =>
        let nouns :=
          filter (λ wt : string * string, wt.2 ∈ KEYWORD_POS_TAGS)
                 tagged_tokens in
        match mapM (λ wt : string * string, lemmatize wt.1) nouns with
        | None => []
        | Some keywords => fst <$> most_common max_keywords (FreqDist keywords)
        end
    end.

End nlp_processor.
End nlp_processor.


(** [EmoteSet = Dict[str, str]] *)
Abbreviation EmoteSet := (gmap string string).

(** ** emote_handler.py *)
Module emote_handler.
Section emote_handler.
Context `{PyFloat} `{!EmoteApis}.

Record EmoteData := {
  name : string;
  url : string;
  sentiment_score : option float;
}.

(** The two module-level caches. *)
Record caches := {
  emote_cache : gmap string (EmoteSet * EmoteSet);
  seventv_global_cache : option EmoteSet;
}.

Definition get_twitch_user_id (channel_name : string)
    (client_id token : option string) : option string :=
  match client_id, token with
  | Some cid, Some tok =>
      if negb (Py.truthy cid) || negb (Py.truthy tok) then None
      else helix_user_id cid tok (Py.lower channel_name)
  | _, _ => None
  end.

Definition get_ffz_emotes (channel_name : string) : EmoteSet :=
  ffz_room (Py.lower channel_name).

Definition get_7tv_emotes (channel_id : string) : EmoteSet :=
  if negb (Py.truthy channel_id) then ∅ else seventv_user channel_id.

Definition get_7tv_global_emotes : EmoteSet := seventv_global.

(** [fetch_all_emotes_for_channel], run without interruption (no other call
    runs while this one awaits; [fetch_step] below has the call await by
    await): the caches after the call and the tuple returned. Both gathered
    coroutines return a dictionary, so the two [isinstance(..., Exception)]
    tests of the source are never true. *)
Definition fetch_all_emotes_for_channel (st : caches) (channel_name : string)
    (client_id token : option string)
  : caches * (EmoteSet * EmoteSet * EmoteSet) :=
  let channel_name_lower := Py.lower channel_name in
  let global_cache :=
    match seventv_global_cache st with
    | None => get_7tv_global_emotes
    | Some cached => cached
    end in
  let twitch_user_id :=
    get_twitch_user_id channel_name_lower client_id token in
  let ffz_emotes := get_ffz_emotes channel_name_lower in
  let seventv_channel_emotes :=
    match twitch_user_id with
    | Some uid => if Py.truthy uid then get_7tv_emotes uid else ∅
    | None => ∅
    end in
  ({| emote_cache :=
        <[channel_name_lower := (ffz_emotes, seventv_channel_emotes)]>
          (emote_cache st);
      seventv_global_cache := Some global_cache |},
   (ffz_emotes, seventv_channel_emotes, global_cache)).

(** Where a call of [fetch_all_emotes_for_channel] stands: at its entry,
    suspended in the request of the global mapping (line 197), in the
    identity lookup (line 201) or in the gathered channel requests (line
    204), or finished. *)
Inductive fetch_pc :=
| fetch_entry
| fetch_global
| fetch_user_id
| fetch_channel (twitch_user_id : option string)
| fetch_returned (result : EmoteSet * EmoteSet * EmoteSet).

(** One atomic step of [fetch_all_emotes_for_channel]: from the program
    point [pc] to the next [await] or to the [return]. The answer of a
    remote service is read when the call resumes; the global cache is tested
    at the entry, assigned when the global request returns, and read again
    for the value returned. *)
Definition fetch_step (channel_name : string) (client_id token : option string)
    (st : caches) (pc : fetch_pc) : caches * fetch_pc :=
  let channel_name_lower := Py.lower channel_name in
  match pc with
  | fetch_entry =>
      match seventv_global_cache st with
      | None => (st, fetch_global)
      | Some _ => (st, fetch_user_id)
      end
  | fetch_global =>
      ({| emote_cache := emote_cache st;
          seventv_global_cache := Some get_7tv_global_emotes |},
       fetch_user_id)
  | fetch_user_id =>
      (st,
       fetch_channel (get_twitch_user_id channel_name_lower client_id token))
  | fetch_channel twitch_user_id =>
      let ffz_emotes := get_ffz_emotes channel_name_lower in
      let seventv_channel_emotes :=
        match twitch_user_id with
        | Some uid => if Py.truthy uid then get_7tv_emotes uid else ∅
        | None => ∅
        end in
      ({| emote_cache :=
            <[channel_name_lower := (ffz_emotes, seventv_channel_emotes)]>
              (emote_cache st);
          seventv_global_cache := seventv_global_cache st |},
       fetch_returned
         (ffz_emotes, seventv_channel_emotes,
          default ∅ (seventv_global_cache st)))
  | fetch_returned _ => (st, pc)
  end.

(** [{**global_seventv_emotes, **ffz_emotes, **seventv_emotes}] *)
Definition combined_emotes (ffz_emotes seventv_emotes global_seventv_emotes
    : EmoteSet) : EmoteSet :=
  Py.dict_update (Py.dict_update global_seventv_emotes ffz_emotes)
                 seventv_emotes.

(** The body of the loop of [detect_emotes_in_message] for one word: what is
    appended to [detected]. The [else] branch that would append an emote
    without a score is commented out in the source. *)
Definition detect_word (emote_sentiment_scores : gmap string float)
    (combined : EmoteSet) (word : string) : list EmoteData :=
  match combined !! word with
  | Some u =>
      match emote_sentiment_scores !! word with
      | Some x => [ {| name := word; url := u; sentiment_score := Some x |} ]
      | None => []
      end
  | None => []
  end.

Definition detect_emotes_in_message
    (emote_sentiment_scores : gmap string float) (message_content : string)
    (ffz_emotes seventv_emotes global_seventv_emotes : EmoteSet)
  : list EmoteData :=
  let words := Py.split message_content in
  let combined :=
    combined_emotes ffz_emotes seventv_emotes global_seventv_emotes in
  foldl (λ detected word,
           detected ++ detect_word emote_sentiment_scores combined word)
        [] words.

End emote_handler.

(** *** Overlapping calls of [fetch_all_emotes_for_channel]

    Every bot runs its own [_fetch_emotes] task, so calls for several
    channels overlap. A schedule names, step by step, the call that runs
    until its next [await], together with what the remote services answer
    at that moment. *)
Record fetching := {
  fetch_caches : caches;
  fetchers : list (string * fetch_pc);
}.

Definition fetching_step (client_id token : option string) (sys : fetching)
    (turn : nat * EmoteApis) : fetching :=
  match fetchers sys !! turn.1 with
  | Some (channel_name, pc) =>
      let r := @fetch_step turn.2 channel_name client_id token
                 (fetch_caches sys) pc in
      {| fetch_caches := r.1;
         fetchers := <[turn.1 := (channel_name, r.2)]> (fetchers sys) |}
  | None => sys
  end.

Definition run_fetches (client_id token : option string)
    (schedule : list (nat * EmoteApis)) (st : caches)
    (channel_names : list string) : fetching :=
  foldl (fetching_step client_id token)
    {| fetch_caches := st;
       fetchers := (λ channel_name, (channel_name, fetch_entry))
                     <$> channel_names |}
    schedule.

End emote_handler.

(** ** websocket_manager.py *)
Module websocket_manager.

(** A WebSocket object, by identity. *)
Abbreviation WebSocket := nat.

(** [ConnectionManager.active_connections] *)
Abbreviation connections := (gmap string (list nat)).

(** [connect]: [accepted] tells whether [websocket.accept()] returned; if it
    raised, [connect] raises too and the registry is as before. *)
Definition connect (accepted : bool) (websocket : WebSocket)
    (streamer_name : string) (active_connections : connections)
  : option connections :=
  if accepted then
    let streamer_name := Py.lower streamer_name in
    let clients := default [] (active_connections !! streamer_name) in
    Some (<[streamer_name := clients ++ [websocket]]> active_connections)
  else None.

(** [disconnect] has no [await] inside: it is one atomic step. *)
Definition disconnect (websocket : WebSocket) (streamer_name : string)
    (active_connections : connections) : connections :=
  let streamer_name := Py.lower streamer_name in
  match active_connections !! streamer_name with
  | Some clients =>
      match Py.list_remove websocket clients with
      | Some [] => delete streamer_name active_connections
      | Some rest => <[streamer_name := rest]> active_connections
      | None => active_connections
      end
  | None => active_connections
  end.

(** [broadcast_to_streamer]: [send_fails ws] tells whether
    [ws.send_json(message)] raises. Returns the registry after the failed
    clients are disconnected, and the clients the message was delivered to. *)
Definition broadcast_to_streamer (send_fails : WebSocket → bool)
    (streamer_name : string) (active_connections : connections)
  : connections * list nat :=
  let streamer_name := Py.lower streamer_name in
  match active_connections !! streamer_name with
  | Some clients =>
      let disconnected_clients := filter (λ c, send_fails c = true) clients in
      (foldl (λ conns client, disconnect client streamer_name conns)
             active_connections disconnected_clients,
       filter (λ c, send_fails c = false) clients)
  | None => (active_connections, [])
  end.

(** The subscribers of a channel, none when the channel is not listed. *)
Definition subscribers (active_connections : connections)
    (streamer_name : string) : list nat :=
  default [] (active_connections !! streamer_name).

(** Every listed channel has a subscriber. *)
Definition registry_inv (active_connections : connections) : Prop :=
  ∀ streamer clients,
    active_connections !! streamer = Some clients → clients ≠ [].

End websocket_manager.

(** ** twitch_irc.py *)

(** The credentials read from the environment when the module is loaded. *)
Class Env := {
  TWITCH_ACCESS_TOKEN : string;
  TWITCH_CLIENT_ID : string;
}.

Module twitch_irc.
Section twitch_irc.
Context `{Vader} `{!Nltk} `{!EmoteApis} `{!Env}.

(** The raw chat event handed to [event_message] by twitchio. *)
Record Message := {
  echo : bool;
  content : string;
  author : string;
  timestamp : string;
  tags : option (gmap string string);
}.

(** An entry of [all_detected_emotes]. *)
Record DetectedEmote := {
  name : string;
  url : string;
  type : string;
  sentiment_score : option float;
}.

(** The payload of a [chat_message] event. *)
Record Payload := {
  p_timestamp : string;
  p_author : string;
  p_content : string;
  p_tags : option (gmap string string);
  p_sentiment_score : option float;
  p_sentiment_words : gmap string float;
  p_keywords : list string;
  p_detected_emotes : list DetectedEmote;
}.

(** The JSON events sent to the dashboard. *)
Inductive Event :=
| status (payload : string)
| warning (payload : string)
| error (payload : string)
| chat_message (payload : Payload).

Inductive task_state := no_task | task_pending | task_done | task_cancelled.

Inductive connector_state := constructed | started | closing | closed.

(** A [TwitchBot] instance: its fields and the state of its IRC connector. *)
Record TwitchBot := {
  streamer_channel : string;
  ffz_emotes : EmoteSet;
  seventv_channel_emotes : EmoteSet;
  seventv_global_emotes : EmoteSet;
  _emote_fetch_task : task_state;
  connector : connector_state;
}.

(** [TwitchBot.__init__], lines 31-45: the fields of a new instance. *)
Definition TwitchBot_init (streamer_channel : string) : TwitchBot :=
  {| streamer_channel := Py.lower streamer_channel;
     ffz_emotes := ∅;
     seventv_channel_emotes := ∅;
     seventv_global_emotes := ∅;
     _emote_fetch_task := no_task;
     connector := constructed |}.

(** [TwitchBot.__init__], line 49:
    [TWITCH_ACCESS_TOKEN if TWITCH_ACCESS_TOKEN else None]. *)
Definition irc_token : option string :=
  if Py.truthy TWITCH_ACCESS_TOKEN then Some TWITCH_ACCESS_TOKEN else None.

(** [TwitchBot(streamer_channel=..., ws_manager=...)]. The fields are set
    and [irc_token] is handed to [commands.Bot.__init__] of twitchio, which
    strips the prefix of the token with [token.replace]: on [None], the
    anonymous login of lines 47-50, this raises and no instance is built. *)
Definition new_TwitchBot (streamer_channel : string) : Py.outcome TwitchBot :=
  match irc_token with
  | Some _ => Py.Returned (TwitchBot_init streamer_channel)
  | None => Py.Raised
  end.

(** The process: the catalog of [nlp_processor], the caches of
    [emote_handler], the registry of the [ConnectionManager], every
    [TwitchBot] constructed so far (a reference is its index) and the
    module-level [active_bots]. *)
Record backend := {
  emote_sentiment_scores : gmap string float;
  emote_caches : emote_handler.caches;
  active_connections : websocket_manager.connections;
  bots : list TwitchBot;
  active_bots : gmap string nat;
}.

Definition set_connections (st : backend)
    (conns : websocket_manager.connections) : backend :=
  {| emote_sentiment_scores := emote_sentiment_scores st;
     emote_caches := emote_caches st;
     active_connections := conns;
     bots := bots st;
     active_bots := active_bots st |}.


Definition set_scores (st : backend) (scores : gmap string float) : backend :=
  {| emote_sentiment_scores := scores;
     emote_caches := emote_caches st;
     active_connections := active_connections st;
     bots := bots st;
     active_bots := active_bots st |}.

Definition set_bots (st : backend) (bs : list TwitchBot)
    (active : gmap string nat) : backend :=
  {| emote_sentiment_scores := emote_sentiment_scores st;
     emote_caches := emote_caches st;
     active_connections := active_connections st;
     bots := bs;
     active_bots := active |}.

(** [ws_manager.broadcast_to_streamer(streamer_name, event)] from inside the
    process: the registry is updated and the deliveries are reported. *)
Definition broadcast (send_fails : nat → bool) (streamer_name : string)
    (ev : Event) (st : backend) : backend * list (nat * Event) :=
  let r := websocket_manager.broadcast_to_streamer
             send_fails streamer_name (active_connections st) in
  (set_connections st r.1, (λ ws, (ws, ev)) <$> r.2).

(** *** The enrichment pipeline of [event_message] *)

(** One [emote_part] of the [emotes] tag: the emote id and the bounds of its
    first range. [None] stands for any exception raised on the way. *)
Definition parse_emote_part (emote_part : string) : option (string * Z * Z) :=
  match Py.split_once ":" emote_part with
  | Some (emote_id, ranges) =>
      let first_range := default "" (head (Py.split_on "," ranges)) in
      match Py.split_on "-" first_range with
      | [a; b] =>
          match Py.int a, Py.int b with
          | Some start, Some end_ => Some (emote_id, start, end_)
          | _, _ => None
          end
      | _ => None
      end
  | None => None
  end.

(** The native emotes the loop over the tag gets to: (id, name) for each part
    up to the first one that raises, which ends the loop. *)
Fixpoint native_tags (message_content : string) (parts : list string)
  : list (string * string) :=
  match parts with
  | [] => []
  | emote_part :: rest =>
      match parse_emote_part emote_part with
      | Some (emote_id, start, end_) =>
          (emote_id, Py.slice message_content start (end_ + 1)%Z)
            :: native_tags message_content rest
      | None => []
      end
  end.

Definition twitch_emote_url (emote_id : string) : string :=
  "https://static-cdn.jtvnw.net/emoticons/v2/" +:+ emote_id
    +:+ "/default/dark/1.0".

Definition twitch_entry (sentiment_words : gmap string float)
    (tag : string * string) : DetectedEmote :=
  {| name := tag.2;
     url := twitch_emote_url tag.1;
     type := "twitch";
     sentiment_score := sentiment_words !! tag.2 |}.

(** [custom_emote.get('source', 'custom')] is ['custom']: the dictionaries
    built by [detect_emotes_in_message] have no ['source'] key. *)
Definition custom_entry (sentiment_words : gmap string float)
    (custom_emote : emote_handler.EmoteData) : DetectedEmote :=
  {| name := emote_handler.name custom_emote;
     url := emote_handler.url custom_emote;
     type := "custom";
     sentiment_score := sentiment_words !! emote_handler.name custom_emote |}.

(** The guarded [append]: [acc.1] is [all_detected_emotes] and [acc.2] is
    [processed_emote_names]. *)
Definition add_emote (acc : list DetectedEmote * gset string)
    (e : DetectedEmote) : list DetectedEmote * gset string :=
  if decide (name e ∈ acc.2) then acc
  else (acc.1 ++ [e], {[name e]} ∪ acc.2).

(** The [emotes] tag, when [message.tags and message.tags.get('emotes')] is
    truthy. *)
Definition emote_tag (message : Message) : option string :=
  match tags message with
  | Some t =>
      match t !! "emotes" with
      | Some tag => if Py.truthy tag then Some tag else None
      | None => None
      end
  | None => None
  end.

Definition message_native_tags (message : Message) : list (string * string) :=
  match emote_tag message with
  | Some tag => native_tags (content message) (Py.split_on "/" tag)
  | None => []
  end.

Definition merge_emotes (sentiment_words : gmap string float)
    (native : list (string * string))
    (all_custom_emotes : list emote_handler.EmoteData) : list DetectedEmote :=
  let after_twitch :=
    foldl add_emote ([], ∅) (twitch_entry sentiment_words <$> native) in
  (foldl add_emote after_twitch
         (custom_entry sentiment_words <$> all_custom_emotes)).1.

(** [event_message] up to the broadcast, for any outcome of the call of
    [analyze_sentiment]: the event to broadcast, or [None] when the message is
    an echo or has no content. *)
Definition event_message_with
    (analyze : string → Py.outcome (option float * gmap string float))
    (scores : gmap string float) (bot : TwitchBot) (message : Message)
  : option Event :=
  if echo message then None
  else if negb (Py.truthy (content message)) then None
  else
    let '(sentiment_score, sentiment_words) :=
      match analyze (content message) with
      | Py.Returned r => r
      | Py.Raised => (Some float_zero, ∅)
      end in
    let keywords := nlp_processor.extract_keywords (content message) 5 in
    let all_custom_emotes :=
      emote_handler.detect_emotes_in_message scores (content message)
        (ffz_emotes bot) (seventv_channel_emotes bot)
        (seventv_global_emotes bot) in
    let all_detected_emotes :=
      merge_emotes sentiment_words (message_native_tags message)
                   all_custom_emotes in
    Some (chat_message
            {| p_timestamp := timestamp message;
               p_author := author message;
               p_content := content message;
               p_tags := tags message;
               p_sentiment_score := sentiment_score;
               p_sentiment_words := sentiment_words;
               p_keywords := keywords;
               p_detected_emotes := all_detected_emotes |}).

(** The enrichment with the [analyze_sentiment] of [nlp_processor]. *)
Definition enrich (scores : gmap string float) (bot : TwitchBot)
    (message : Message) : option Event :=
  event_message_with
    (λ text, Py.Returned (nlp_processor.analyze_sentiment scores text))
    scores bot message.

(** The result of handling one raw event. *)
Record handled := {
  after : backend;
  emitted : option Event;
  delivered : list (nat * Event);
}.

(** [TwitchBot.event_message] of the bot [ref]. *)
Definition event_message (send_fails : nat → bool) (st : backend)
    (ref : nat) (message : Message) : handled :=
  match bots st !! ref with
  | Some bot =>
      match enrich (emote_sentiment_scores st) bot message with
      | Some ev =>
          let r := broadcast send_fails (streamer_channel bot) ev st in
          {| after := r.1; emitted := Some ev; delivered := r.2 |}
      | None => {| after := st; emitted := None; delivered := [] |}
      end
  | None => {| after := st; emitted := None; delivered := [] |}
  end.

(** *** The life cycle of a bot *)

(** [event_ready]: the emote fetch task is created unless one is running, and
    the join is announced. *)
Definition event_ready (send_fails : nat → bool) (st : backend) (ref : nat)
  : backend * list (nat * Event) :=
  match bots st !! ref with
  | Some bot =>
      let bot' :=
        {| streamer_channel := streamer_channel bot;
           ffz_emotes := ffz_emotes bot;
           seventv_channel_emotes := seventv_channel_emotes bot;
           seventv_global_emotes := seventv_global_emotes bot;
           (* a running task is kept, else a new one is created *)
           _emote_fetch_task := task_pending;
           connector := started |} in
      broadcast send_fails (streamer_channel bot)
        (status ("Successfully joined chat for " +:+ streamer_channel bot))
        (set_bots st (<[ref := bot']> (bots st)) (active_bots st))
  | None => (st, [])
  end.


(** [stop_bot] up to its [await self.close()]: the fetch task is cancelled if
    it still runs and the connector starts closing. *)
Definition begin_stop (bot : TwitchBot) : TwitchBot :=
  {| streamer_channel := streamer_channel bot;
     ffz_emotes := ffz_emotes bot;
     seventv_channel_emotes := seventv_channel_emotes bot;
     seventv_global_emotes := seventv_global_emotes bot;
     _emote_fetch_task :=
       match _emote_fetch_task bot with
       | task_pending => task_cancelled
       | t => t
       end;
     connector := closing |}.

(** [stop_bot] after [self.close()] has returned. *)
Definition finish_stop (bot : TwitchBot) : TwitchBot :=
  {| streamer_channel := streamer_channel bot;
     ffz_emotes := ffz_emotes bot;
     seventv_channel_emotes := seventv_channel_emotes bot;
     seventv_global_emotes := seventv_global_emotes bot;
     _emote_fetch_task := _emote_fetch_task bot;
     connector := closed |}.


(** [event_close]: a running emote fetch task is cancelled and the closing
    is announced. *)
Definition event_close (send_fails : nat → bool) (st : backend) (ref : nat)
  : backend * list (nat * Event) :=
  match bots st !! ref with
  | Some bot =>
      let bot' :=
        {| streamer_channel := streamer_channel bot;
           ffz_emotes := ffz_emotes bot;
           seventv_channel_emotes := seventv_channel_emotes bot;
           seventv_global_emotes := seventv_global_emotes bot;
           _emote_fetch_task :=
             match _emote_fetch_task bot with
             | task_pending => task_cancelled
             | t => t
             end;
           connector := connector bot |} in
      broadcast send_fails (streamer_channel bot)
        (status ("IRC connection closed for " +:+ streamer_channel bot
                 +:+ "."))
        (set_bots st (<[ref := bot']> (bots st)) (active_bots st))
  | None => (st, [])
  end.

(** Where a call of [start_twitch_bot] stands: at its entry, suspended in one
    of its two broadcasts, or finished. *)
Inductive start_pc :=
| start_entry
| start_already_running
| start_anonymous_warning
| start_returned (bot : nat)
| start_raised.

(** Lines 274-284: a bot is constructed and registered, its [start()] is
    handed to a new task, and the bot is returned. The constructor is called
    before the [try]: when it raises, [start_twitch_bot] raises and nothing
    is registered. [asyncio.create_task] does not raise, so neither [except]
    clause is ever entered. *)
Definition create_bot (streamer_name : string) (st : backend)
  : backend * start_pc :=
  match new_TwitchBot streamer_name with
  | Py.Returned instance =>
      let bot := length (bots st) in
      (set_bots st (bots st ++ [instance])
                (<[streamer_name := bot]> (active_bots st)),
       start_returned bot)
  | Py.Raised => (st, start_raised)
  end.

(** One atomic step of [start_twitch_bot streamer_name]: from the program
    point [pc] to the next [await] or to the [return]. *)
Definition start_step (send_fails : nat → bool) (streamer_name : string)
    (st : backend) (pc : start_pc) : backend * start_pc :=
  let streamer_name := Py.lower streamer_name in
  match pc with
  | start_entry =>
      match active_bots st !! streamer_name with
      | Some _ =>
          ((broadcast send_fails streamer_name
              (status ("Analysis already running for " +:+ streamer_name
                       +:+ ".")) st).1,
           start_already_running)
      | None =>
          if negb (Py.truthy TWITCH_ACCESS_TOKEN) then
            ((broadcast send_fails streamer_name
                (warning "Connecting to Twitch anonymously. Bot functionality might be limited.")
                st).1,
             start_anonymous_warning)
          else create_bot streamer_name st
      end
  | start_already_running =>
      match active_bots st !! streamer_name with
      | Some bot => (st, start_returned bot)
      | None => (st, start_raised)
      end
  | start_anonymous_warning => create_bot streamer_name st
  | start_returned _ | start_raised => (st, pc)
  end.

(** [start_twitch_bot] run without interruption: at most one [await] lies
    between the entry and the return. *)
Definition start_twitch_bot (send_fails : nat → bool) (streamer_name : string)
    (st : backend) : backend * start_pc :=
  let r := start_step send_fails streamer_name st start_entry in
  start_step send_fails streamer_name r.1 r.2.

(** Where a call of [stop_twitch_bot] stands. *)
Inductive stop_pc :=
| stop_entry
| stop_closing (bot : nat)
| stop_returned (stopped : bool).

(** [stop_twitch_bot streamer_name] from its entry to the [await] of
    [self.close()] inside [bot.stop_bot()]: the entry is popped from
    [active_bots] first. *)
Definition stop_pop (streamer_name : string) (st : backend)
  : backend * stop_pc :=
  let streamer_name := Py.lower streamer_name in
  match active_bots st !! streamer_name with
  | Some bot =>
      (set_bots st (alter begin_stop bot (bots st))
                (delete streamer_name (active_bots st)),
       stop_closing bot)
  | None => (st, stop_returned false)
  end.

(** One atomic step of [stop_twitch_bot streamer_name]. [close_raises bot]
    tells whether the [self.close()] of the bot raises: then [stop_bot]
    raises, the bot is left as it is, and the [except] clause of
    [stop_twitch_bot] returns [False]. *)
Definition stop_step (close_raises : nat → bool) (streamer_name : string)
    (st : backend) (pc : stop_pc) : backend * stop_pc :=
  match pc with
  | stop_entry => stop_pop streamer_name st
  | stop_closing bot =>
      if close_raises bot then (st, stop_returned false)
      else
        (set_bots st (alter finish_stop bot (bots st)) (active_bots st),
         stop_returned true)
  | stop_returned _ => (st, pc)
  end.

(** [stop_twitch_bot] run without interruption. *)
Definition stop_twitch_bot (close_raises : nat → bool)
    (streamer_name : string) (st : backend) : backend * stop_pc :=
  let r := stop_step close_raises streamer_name st stop_entry in
  stop_step close_raises streamer_name r.1 r.2.

(** [get_active_bot_count] *)
Definition get_active_bot_count (st : backend) : nat := size (active_bots st).

(** *** Concurrent callers of [start_twitch_bot]

    Several calls for one channel run as tasks of the event loop: a schedule
    names, step by step, the task that runs until its next [await]. An
    [await] may suspend the task or not: a schedule that names a task twice
    in a row is the run in which its [await] did not suspend. *)
Record system := {
  shared : backend;
  callers : list start_pc;
}.

Definition spawn (n : nat) (st : backend) : system :=
  {| shared := st; callers := replicate n start_entry |}.

Definition schedule_step (send_fails : nat → bool) (streamer_name : string)
    (sys : system) (i : nat) : system :=
  match callers sys !! i with
  | Some pc =>
      let r := start_step send_fails streamer_name (shared sys) pc in
      {| shared := r.1; callers := <[i := r.2]> (callers sys) |}
  | None => sys
  end.

Definition run_schedule (send_fails : nat → bool) (streamer_name : string)
    (schedule : list nat) (sys : system) : system :=
  foldl (schedule_step send_fails streamer_name) sys schedule.

(** What the callers of [start_twitch_bot] can observe when a token is set:
    either nobody has passed the entry and no bot exists, or the one bot
    [length (bots st0)] is registered and is the only handle returned. *)
Definition serialized (st0 : backend) (streamer_name : string)
    (sys : system) : Prop :=
  (active_bots (shared sys) !! Py.lower streamer_name
     = None
   ∧ bots (shared sys) = bots st0
   ∧ ∀ pc, pc ∈ callers sys → pc = start_entry)
  ∨ (active_bots (shared sys) !! Py.lower streamer_name
       = Some (length (bots st0))
     ∧ bots (shared sys)
       = bots st0
           ++ [TwitchBot_init (Py.lower streamer_name)]
     ∧ ∀ pc, pc ∈ callers sys →
         pc = start_entry
         ∨ pc = start_already_running
         ∨ pc = start_returned (length (bots st0))).

End twitch_irc.
End twitch_irc.

(** ** main.py *)
Module main.
Section main.
Context `{Vader} `{!Nltk} `{!EmoteApis} `{!Env}.

Record reload_response := {
  success : bool;
  emote_count : nat;
}.

(** [POST /reload-emoji-sentiments]. [reload_emote_sentiment_scores] does not
    raise, so the answer is always the successful one. *)
Definition reload_emoji_sentiments (csv : option (list nlp_processor.csv_row))
    (st : twitch_irc.backend) : twitch_irc.backend * reload_response :=
  let r := nlp_processor.reload_emote_sentiment_scores
             csv (twitch_irc.emote_sentiment_scores st) in
  (twitch_irc.set_scores st r.1, {| success := true; emote_count := r.2 |}).

(** [websocket_endpoint] from its entry to the keep-alive loop, run without
    interruption: the client registers and the bot of the channel is acquired.
    When [start_twitch_bot] raises, the [except] clause reports the error to
    the clients of the channel. [None] when the name is empty or [accept]
    raised. *)
Definition websocket_open (send_fails : nat → bool) (accepted : bool)
    (websocket : nat) (streamer_name : string) (st : twitch_irc.backend)
  : twitch_irc.backend * option twitch_irc.start_pc :=
  let streamer_name := Py.strip (Py.lower streamer_name) in
  if negb (Py.truthy streamer_name) then (st, None)
  else
    match websocket_manager.connect accepted websocket streamer_name
            (twitch_irc.active_connections st) with
    | Some conns =>
        let r := twitch_irc.start_twitch_bot send_fails streamer_name
                   (twitch_irc.set_connections st conns) in
        match r.2 with
        | twitch_irc.start_raised =>
            (twitch_irc.set_connections r.1
               (websocket_manager.broadcast_to_streamer send_fails
                  streamer_name (twitch_irc.active_connections r.1)).1,
             Some r.2)
        | _ => (r.1, Some r.2)
        end
    | None => (st, None)
    end.

(** The [finally] block of [websocket_endpoint] up to the [await] inside
    [stop_twitch_bot]: the client leaves the registry and, if the channel is
    no longer listed there, the bot is popped and its stop begins. *)
Definition websocket_cleanup (websocket : nat) (streamer_name : string)
    (st : twitch_irc.backend) : twitch_irc.backend * option twitch_irc.stop_pc :=
  let streamer_name := Py.strip (Py.lower streamer_name) in
  let st1 :=
    twitch_irc.set_connections st
      (websocket_manager.disconnect websocket streamer_name
         (twitch_irc.active_connections st)) in
  match twitch_irc.active_connections st1 !! streamer_name with
  | None =>
      let r := twitch_irc.stop_pop streamer_name st1 in
      (r.1, Some r.2)
  | Some _ => (st1, None)
  end.

(** [shutdown_event]: [streamer_names] is [list(active_bots.keys())]. The
    [stop_twitch_bot] calls are gathered, each one a task of the event loop:
    a schedule names, step by step, the task that runs until its next
    [await]. *)
Record shutdown := {
  stopping : twitch_irc.backend;
  shutdown_tasks : list (string * twitch_irc.stop_pc);
}.

Definition shutdown_step (close_raises : nat → bool) (sys : shutdown)
    (i : nat) : shutdown :=
  match shutdown_tasks sys !! i with
  | Some (name, pc) =>
      let r := twitch_irc.stop_step close_raises name (stopping sys) pc in
      {| stopping := r.1;
         shutdown_tasks := <[i := (name, r.2)]> (shutdown_tasks sys) |}
  | None => sys
  end.

Definition shutdown_event (close_raises : nat → bool) (schedule : list nat)
    (streamer_names : list string) (st : twitch_irc.backend) : shutdown :=
  foldl (shutdown_step close_raises)
    {| stopping := st;
       shutdown_tasks :=
         (λ name, (name, twitch_irc.stop_entry)) <$> streamer_names |}
    schedule.

(** [asyncio.gather] has returned: every gathered call has. *)
Definition gathered (sys : shutdown) : Prop :=
  ∀ name pc, (name, pc) ∈ shutdown_tasks sys →
    ∃ stopped, pc = twitch_irc.stop_returned stopped.

End main.
End main.

(** ** Concrete collaborators for the scenarios *)
Module scenario.

(** Scores counted in thousandths. *)
Definition milli : PyFloat :=
  {| float := Z;
     float_zero := 0%Z;
     float_nonzero := λ x, negb (x =? 0)%Z;
     float_round3 := λ x, x;
     float_of_str := Py.int |}.

(** Scores counted in thousandths, with a [float()] that accepts no text. *)
Definition plain : PyFloat :=
  {| float := Z;
     float_zero := 0%Z;
     float_nonzero := λ x, match x with Z0 => false | _ => true end;
     float_round3 := λ x, x;
     float_of_str := λ _, None |}.

(** A scorer that finds every text neutral but those with "great" in front. *)
Definition calm_vader : @Vader milli :=
  Build_Vader milli
    (λ text, Some (if String.prefix "great" text then 600 else 0)%Z).


(** NLTK with its data missing: no keywords. *)
Definition no_nltk : Nltk :=
  {| NLTK_DATA_READY := false;
     stop_words := ∅;
     pos_tag := λ _, None;
     lemmatize := λ _, None |}.

(** FFZ knows the emote X of every channel, 7TV and Helix know nothing. *)
Definition ffz_only : EmoteApis :=
  {| helix_user_id := λ _ _ _, None;
     ffz_room := λ _, {[ "X" := "https://cdn.frankerfacez.com/X/1" ]};
     seventv_user := λ _, ∅;
     seventv_global := {[ "Y" := "https://cdn.7tv.app/Y/1x.webp" ]} |}.

(** Helix resolves every login to the id 42. *)
Definition all_sources : EmoteApis :=
  {| helix_user_id := λ _ _ _, Some "42";
     ffz_room := λ _, {[ "X" := "https://cdn.frankerfacez.com/X/1" ]};
     seventv_user := λ _, {[ "X" := "https://cdn.7tv.app/X/1x.webp" ]};
     seventv_global := {[ "Y" := "https://cdn.7tv.app/Y/1x.webp" ]} |}.

(** The services later on: the global set of 7TV has changed. *)
Definition renewed : EmoteApis :=
  {| helix_user_id := λ _ _ _, None;
     ffz_room := λ _, ∅;
     seventv_user := λ _, ∅;
     seventv_global := {[ "Z" := "https://cdn.7tv.app/Z/1x.webp" ]} |}.

Definition anonymous : Env :=
  {| TWITCH_ACCESS_TOKEN := ""; TWITCH_CLIENT_ID := "" |}.

Definition with_token : Env :=
  {| TWITCH_ACCESS_TOKEN := "oauth:abc"; TWITCH_CLIENT_ID := "client" |}.


(** The sentiment catalog: two scored emotes. *)
Definition catalog : gmap string (@float milli) :=
  {[ "Kappa" := 300%Z; "LUL" := 700%Z ]}.

(** A viewer writes "hello Kappa LUL"; Twitch tags Kappa as its emote 25. *)
Definition kappa_message : twitch_irc.Message :=
  {| twitch_irc.echo := false;
     twitch_irc.content := "hello Kappa LUL";
     twitch_irc.author := "viewer";
     twitch_irc.timestamp := "2024-01-01T12:00:00";
     twitch_irc.tags := Some {[ "emotes" := "25:6-10" ]} |}.

(** The bot of "foo" once its emotes are loaded: FFZ has a Kappa and a LUL. *)
Definition foo_bot : twitch_irc.TwitchBot :=
  {| twitch_irc.streamer_channel := "foo";
     twitch_irc.ffz_emotes :=
       {[ "Kappa" := "https://cdn.frankerfacez.com/Kappa/1";
          "LUL" := "https://cdn.frankerfacez.com/LUL/1" ]};
     twitch_irc.seventv_channel_emotes := ∅;
     twitch_irc.seventv_global_emotes := ∅;
     twitch_irc._emote_fetch_task := twitch_irc.task_done;
     twitch_irc.connector := twitch_irc.started |}.

(** One client, 1, follows "foo", whose bot has the reference 0. *)
Definition foo_backend : @twitch_irc.backend milli :=
  @twitch_irc.Build_backend milli
    catalog
    {| emote_handler.emote_cache := ∅;
       emote_handler.seventv_global_cache :=
         Some {[ "Old" := "https://cdn.7tv.app/Old/1x.webp" ]} |}
    {[ "foo" := [1] ]}
    [foo_bot]
    {[ "foo" := 0 ]}.

(** Nothing runs yet. *)
Definition idle_backend : @twitch_irc.backend milli :=
  @twitch_irc.Build_backend milli
    catalog
    {| emote_handler.emote_cache := ∅;
       emote_handler.seventv_global_cache := None |}
    ∅ [] ∅.

End scenario.

(** * Properties *)

(** ** Sanity checks of the built-ins *)

Example split_great_play : Py.split "  great play	LUL " = ["great"; "play"; "LUL"].
Proof. reflexivity. Qed.

Example split_on_slash : Py.split_on "/" "25:0-4//1:6-7" = ["25:0-4"; ""; "1:6-7"].
Proof. reflexivity. Qed.

Example int_cases :
  Py.int " 12 " = Some 12%Z ∧ Py.int "+1_000" = Some 1000%Z
  ∧ Py.int "1__0" = None ∧ Py.int "" = None ∧ Py.int "4x" = None
  ∧ Py.int "_1" = None.
Proof. repeat split; reflexivity. Qed.

(** A no-break space is skipped only as such: after one, the text is no
    longer ASCII, and a file separator (a space for [str.isspace], not for
    the parser) is refused as it is in an ASCII text. *)
Example int_spaces :
  Py.int (String (Py.chr 160) "6") = Some 6%Z
  ∧ Py.int (String (Py.chr 160) (String (Py.chr 28) "6")) = None
  ∧ Py.int (String (Py.chr 28) "6") = None
  ∧ Py.int (String (Py.chr 133) (String (Py.chr 31) "1")) = None.
Proof. repeat split; reflexivity. Qed.

Example slice_cases :
  Py.slice "hello Kappa" 6 11 = "Kappa" ∧ Py.slice "abc" 2 10 = "c"
  ∧ Py.slice "abc" 5 9 = "" ∧ Py.slice "abc" (-2) 3 = "bc".
Proof. repeat split; reflexivity. Qed.

Example lower_cases : Py.lower "FooBar_9" = "foobar_9".
Proof. reflexivity. Qed.

Example most_common_stable :
  nlp_processor.most_common 2
    (nlp_processor.FreqDist ["game"; "play"; "stream"; "play"; "stream"])
  = [("play", 2); ("stream", 2)].
Proof. reflexivity. Qed.

(** ** The merged emote mapping and the detection *)
Section detection.
Context `{PyFloat}.
Implicit Types (ffz seventv glob : EmoteSet) (scores : gmap string float).

Lemma dict_update_lookup {V} (a b : gmap string V) k :
  Py.dict_update a b !! k = match b !! k with Some v => Some v | None => a !! k end.
Proof.
  unfold Py.dict_update. destruct (b !! k) as [v|] eqn:Hb.
  - by apply lookup_union_Some_l.
  - by rewrite lookup_union_r.
Qed.

(** C3, as the code has it: on a name collision the merged mapping takes the
    7TV channel entry first, then the FFZ entry, then the global 7TV entry. So
    a channel-scoped entry shadows a global one, and between the two channel
    sources 7TV wins over FFZ. *)
Theorem combined_emotes_precedence ffz seventv glob word :
  emote_handler.combined_emotes ffz seventv glob !! word
  = match seventv !! word with
    | Some u => Some u
    | None => match ffz !! word with
              | Some u => Some u
              | None => glob !! word
              end
    end.
Proof.
  unfold emote_handler.combined_emotes. by rewrite !dict_update_lookup.
Qed.

(** The detection is the concatenation, word by word, of the loop body. *)
Lemma detect_emotes_flat scores text ffz seventv glob :
  emote_handler.detect_emotes_in_message scores text ffz seventv glob
  = Py.split text ≫=
      emote_handler.detect_word scores
        (emote_handler.combined_emotes ffz seventv glob).
Proof.
  unfold emote_handler.detect_emotes_in_message.
  generalize (emote_handler.combined_emotes ffz seventv glob) as combined.
  intros combined.
  assert (Hgen : ∀ ws acc,
    foldl (λ detected word,
             detected ++ emote_handler.detect_word scores combined word) acc ws
    = acc ++ (ws ≫= emote_handler.detect_word scores combined)).
  { induction ws as [|w ws IH]; intros acc; simpl.
    - by rewrite app_nil_r.
    - by rewrite IH, app_assoc. }
  by rewrite Hgen.
Qed.

(** C2, as the code has it: a token is reported exactly when it is a name of
    the merged mapping that also has a score in the sentiment catalog, and it
    is reported with that score; a match without a catalog entry is left out
    of the output. *)
Theorem detect_emotes_characterised scores text ffz seventv glob e :
  e ∈ emote_handler.detect_emotes_in_message scores text ffz seventv glob
  ↔ ∃ u x,
      emote_handler.name e ∈ Py.split text
      ∧ emote_handler.combined_emotes ffz seventv glob !! emote_handler.name e
        = Some u
      ∧ scores !! emote_handler.name e = Some x
      ∧ e = {| emote_handler.name := emote_handler.name e;
               emote_handler.url := u;
               emote_handler.sentiment_score := Some x |}.
Proof.
  rewrite detect_emotes_flat, list_elem_of_bind. split.
  - intros (w & He & Hw). unfold emote_handler.detect_word in He.
    destruct (_ !! w) as [u|] eqn:Hu; [|by apply elem_of_nil in He].
    destruct (scores !! w) as [x|] eqn:Hx; [|by apply elem_of_nil in He].
    apply list_elem_of_singleton in He. subst e. simpl. eauto 10.
  - intros (u & x & Hw & Hu & Hx & He). exists (emote_handler.name e).
    split; [|done]. unfold emote_handler.detect_word. rewrite Hu, Hx.
    rewrite He at 1. apply list_elem_of_singleton. done.
Qed.

End detection.

(** C3 fails as stated: with X in the FFZ mapping and in the 7TV channel
    mapping, the merged mapping and the detection give the 7TV address, not
    the FFZ one. *)
Lemma ffz_does_not_shadow_7tv :
  emote_handler.combined_emotes
    {[ "X" := "https://cdn.frankerfacez.com/X/1" ]}
    {[ "X" := "https://cdn.7tv.app/X/1x.webp" ]} ∅ !! "X"
  ≠ Some "https://cdn.frankerfacez.com/X/1"
  ∧ emote_handler.url <$>
      @emote_handler.detect_emotes_in_message scenario.milli
        {[ "X" := 500%Z ]} "nice X"
        {[ "X" := "https://cdn.frankerfacez.com/X/1" ]}
        {[ "X" := "https://cdn.7tv.app/X/1x.webp" ]} ∅
    = [ "https://cdn.7tv.app/X/1x.webp" ].
Proof. split; [by vm_compute|]. by vm_compute. Qed.

(** C2 fails as stated: LUL is in the channel mapping at u1 and not in the
    catalog, and the detection of "great play LUL" is empty: the entry with a
    null score is not in it. *)
Lemma unscored_emote_is_dropped :
  length (@emote_handler.detect_emotes_in_message scenario.milli
            ∅ "great play LUL" {[ "LUL" := "u1" ]} ∅ ∅) = 0
  ∧ @emote_handler.Build_EmoteData scenario.milli "LUL" "u1" None
    ∉ @emote_handler.detect_emotes_in_message scenario.milli
        ∅ "great play LUL" {[ "LUL" := "u1" ]} ∅ ∅.
Proof.
  assert (Hlen :
    length (@emote_handler.detect_emotes_in_message scenario.milli
              ∅ "great play LUL" {[ "LUL" := "u1" ]} ∅ ∅) = 0).
  { vm_compute. reflexivity. }
  split; [exact Hlen|]. apply nil_length_inv in Hlen. rewrite Hlen.
  apply not_elem_of_nil.
Qed.

(** ** Fetching the emote mappings *)
Section fetching.
Context `{PyFloat} `{!EmoteApis}.

(** C5, as the code has it: when the identity lookup fails, the 7TV channel
    mapping is empty, the FFZ mapping is still the one fetched by channel
    name, and the global mapping is the cached one or, without a cache, the
    one fetched now. *)
Theorem fetch_without_user_id (st : emote_handler.caches)
    (channel_name : string) (client_id token : option string) :
  emote_handler.get_twitch_user_id (Py.lower channel_name) client_id token
    = None →
  let r := emote_handler.fetch_all_emotes_for_channel
             st channel_name client_id token in
  r.2.1.2 = ∅
  ∧ r.2.1.1 = emote_handler.get_ffz_emotes (Py.lower channel_name)
  ∧ r.2.2 = default emote_handler.get_7tv_global_emotes
                    (emote_handler.seventv_global_cache st).
Proof.
  intros Hid. unfold emote_handler.fetch_all_emotes_for_channel. simpl.
  rewrite Hid. by destruct (emote_handler.seventv_global_cache st).
Qed.


End fetching.

(** [fetch_without_user_id] at the channel "Foo" without credentials. *)
Lemma fetch_without_user_id_witness :
  let r := @emote_handler.fetch_all_emotes_for_channel scenario.ffz_only
             {| emote_handler.emote_cache := ∅;
                emote_handler.seventv_global_cache := None |}
             "Foo" None None in
  r.2.1.2 = ∅
  ∧ r.2.1.1 = @emote_handler.get_ffz_emotes scenario.ffz_only (Py.lower "Foo")
  ∧ r.2.2 = @emote_handler.get_7tv_global_emotes scenario.ffz_only.
Proof.
  apply (@fetch_without_user_id scenario.ffz_only
           {| emote_handler.emote_cache := ∅;
              emote_handler.seventv_global_cache := None |} "Foo" None None).
  reflexivity.
Defined.

(** C5 fails as stated: without credentials the identity lookup fails, yet
    the FFZ mapping returned for the channel is not empty. *)
Lemma ffz_fetched_without_user_id :
  @emote_handler.get_twitch_user_id scenario.ffz_only "foo" None None = None
  ∧ (@emote_handler.fetch_all_emotes_for_channel scenario.ffz_only
       {| emote_handler.emote_cache := ∅;
          emote_handler.seventv_global_cache := None |}
       "foo" None None).2.1.1 ≠ ∅.
Proof. split; [reflexivity|]. by vm_compute. Qed.

(** ** The subscriber registry *)
Section registry.
Implicit Types (conns : websocket_manager.connections) (ws : nat).

Lemma registry_inv_empty : websocket_manager.registry_inv ∅.
Proof. intros streamer clients Hl. by rewrite lookup_empty in Hl. Qed.

Lemma list_remove_absent ws (l : list nat) :
  ws ∉ l → Py.list_remove ws l = None.
Proof.
  induction l as [|y l IH]; [done|]. intros Hn. simpl.
  apply not_elem_of_cons in Hn as [Hne Hn].
  destruct (decide (ws = y)); [done|]. by rewrite IH.
Qed.

Lemma connect_inv conns ws streamer_name conns' :
  websocket_manager.registry_inv conns →
  websocket_manager.connect true ws streamer_name conns = Some conns' →
  websocket_manager.registry_inv conns'.
Proof.
  intros Hinv Hc. unfold websocket_manager.connect in Hc. simpl in Hc.
  injection Hc as <-. intros k l Hl.
  destruct (decide (Py.lower streamer_name = k)) as [<-|Hne].
  - rewrite lookup_insert_eq in Hl. injection Hl as <-.
    by destruct (default [] (conns !! Py.lower streamer_name)).
  - rewrite lookup_insert_ne in Hl by done. eauto.
Qed.

Lemma disconnect_inv conns ws streamer_name :
  websocket_manager.registry_inv conns →
  websocket_manager.registry_inv
    (websocket_manager.disconnect ws streamer_name conns).
Proof.
  intros Hinv. unfold websocket_manager.disconnect.
  destruct (conns !! Py.lower streamer_name) as [clients|]; [|done].
  destruct (Py.list_remove ws clients) as [[|c rest]|]; [| |done].
  - intros k l Hl. apply lookup_delete_Some in Hl as [_ Hl]. eauto.
  - intros k l Hl.
    destruct (decide (Py.lower streamer_name = k)) as [<-|Hne].
    + rewrite lookup_insert_eq in Hl. by injection Hl as <-.
    + rewrite lookup_insert_ne in Hl by done. eauto.
Qed.

Lemma disconnect_all_inv (failed : list nat) conns streamer_name :
  websocket_manager.registry_inv conns →
  websocket_manager.registry_inv
    (foldl (λ c client, websocket_manager.disconnect client streamer_name c)
           conns failed).
Proof.
  revert conns. induction failed as [|x failed IH]; intros conns Hinv; [done|].
  simpl. apply IH. by apply disconnect_inv.
Qed.

Lemma broadcast_inv conns send_fails streamer_name :
  websocket_manager.registry_inv conns →
  websocket_manager.registry_inv
    (websocket_manager.broadcast_to_streamer send_fails streamer_name conns).1.
Proof.
  intros Hinv. unfold websocket_manager.broadcast_to_streamer.
  destruct (conns !! Py.lower streamer_name) as [clients|]; [|done].
  simpl. by apply disconnect_all_inv.
Qed.

Lemma disconnect_last conns ws streamer_name :
  conns !! Py.lower streamer_name = Some [ws] →
  websocket_manager.disconnect ws streamer_name conns
  = delete (Py.lower streamer_name) conns.
Proof.
  intros Hl. unfold websocket_manager.disconnect. rewrite Hl. simpl.
  by destruct (decide (ws = ws)).
Qed.

Lemma disconnect_unknown conns ws streamer_name :
  ws ∉ websocket_manager.subscribers conns (Py.lower streamer_name) →
  websocket_manager.disconnect ws streamer_name conns = conns.
Proof.
  unfold websocket_manager.subscribers, websocket_manager.disconnect.
  destruct (conns !! Py.lower streamer_name) as [clients|]; [|done].
  simpl. intros Hn. by rewrite list_remove_absent.
Qed.

(** C10: if every listed channel has a subscriber, this is still so after
    [connect], [disconnect] and [broadcast_to_streamer]; [disconnect] of the
    last subscriber deletes the channel entry, [disconnect] of a subscriber
    that is not registered changes nothing, and a channel is listed exactly
    when it has a subscriber. The empty registry of [__init__] satisfies the
    invariant ([registry_inv_empty]). *)
Theorem registry_invariant conns :
  websocket_manager.registry_inv conns →
  (∀ ws streamer_name conns',
     websocket_manager.connect true ws streamer_name conns = Some conns' →
     websocket_manager.registry_inv conns')
  ∧ (∀ ws streamer_name,
       websocket_manager.connect false ws streamer_name conns = None)
  ∧ (∀ ws streamer_name,
       websocket_manager.registry_inv
         (websocket_manager.disconnect ws streamer_name conns))
  ∧ (∀ send_fails streamer_name,
       websocket_manager.registry_inv
         (websocket_manager.broadcast_to_streamer
            send_fails streamer_name conns).1)
  ∧ (∀ ws streamer_name,
       conns !! Py.lower streamer_name = Some [ws] →
       websocket_manager.disconnect ws streamer_name conns
       = delete (Py.lower streamer_name) conns)
  ∧ (∀ ws streamer_name,
       ws ∉ websocket_manager.subscribers conns (Py.lower streamer_name) →
       websocket_manager.disconnect ws streamer_name conns = conns)
  ∧ (∀ streamer,
       is_Some (conns !! streamer)
       ↔ websocket_manager.subscribers conns streamer ≠ []).
Proof.
  intros Hinv. split_and!.
  - intros ws n c'. by apply connect_inv.
  - done.
  - intros ws n. by apply disconnect_inv.
  - intros f n. by apply broadcast_inv.
  - apply disconnect_last.
  - apply disconnect_unknown.
  - intros k. unfold websocket_manager.subscribers. split.
    + intros [l Hl]. rewrite Hl. simpl. eauto.
    + destruct (conns !! k); [eauto | done].
Qed.

End registry.

(** [registry_invariant] at the registry with two clients on "foo". *)
Lemma registry_invariant_witness :
  websocket_manager.registry_inv
    (websocket_manager.disconnect 1 "Foo" {[ "foo" := [1; 2] ]})
  ∧ websocket_manager.registry_inv
      (websocket_manager.broadcast_to_streamer
         (λ _, true) "foo" {[ "foo" := [1; 2] ]}).1.
Proof.
  assert (Hinv : websocket_manager.registry_inv {[ "foo" := [1; 2] ]}).
  { intros k l Hl. apply lookup_singleton_Some in Hl as [_ <-]. done. }
  pose proof (registry_invariant {[ "foo" := [1; 2] ]} Hinv)
    as (_ & _ & Hd & Hb & _).
  split; [apply Hd | apply Hb].
Defined.

Example broadcast_drops_failed_clients :
  websocket_manager.broadcast_to_streamer
    (λ ws, bool_decide (ws = 2)) "foo"
    {[ "foo" := [1; 2; 3]; "bar" := [4] ]}
  = ({[ "foo" := [1; 3]; "bar" := [4] ]}, [1; 3])
  ∧ websocket_manager.broadcast_to_streamer
      (λ _, true) "foo" {[ "foo" := [1; 2]; "bar" := [4] ]}
    = ({[ "bar" := [4] ]}, []).
Proof. split; by vm_compute. Qed.

(** ** The enrichment pipeline *)
Section enrichment.
Context `{Vader} `{!Nltk} `{!EmoteApis} `{!Env}.
Implicit Types (e : twitch_irc.DetectedEmote) (n : string).

(** The guarded append keeps, for each name, the first entry offered. *)
Lemma add_emote_first n (l acc : list twitch_irc.DetectedEmote)
    (seen : gset string) :
  (∀ m, m ∈ seen ↔ m ∈ twitch_irc.name <$> acc) →
  filter (λ e, twitch_irc.name e = n)
         (foldl twitch_irc.add_emote (acc, seen) l).1
  = if decide (n ∈ seen) then filter (λ e, twitch_irc.name e = n) acc
    else take 1 (filter (λ e, twitch_irc.name e = n) l).
Proof.
  revert acc seen. induction l as [|e l IH]; intros acc seen Hseen.
  - simpl. destruct (decide (n ∈ seen)) as [|Hn]; [done|].
    apply elem_of_nil_inv. intros e He.
    apply list_elem_of_filter in He as [<- He]. apply Hn, Hseen.
    by apply list_elem_of_fmap_2.
  - simpl. unfold twitch_irc.add_emote at 2. simpl.
    destruct (decide (twitch_irc.name e ∈ seen)) as [Hin|Hout].
    + rewrite IH by done. destruct (decide (n ∈ seen)) as [|Hn]; [done|].
      rewrite filter_cons_False; [done|]. intros <-. done.
    + rewrite IH; last first.
      { intros m. rewrite fmap_app, elem_of_union, elem_of_app, Hseen.
        simpl. rewrite list_elem_of_singleton, elem_of_singleton. tauto. }
      rewrite filter_app.
      destruct (decide (n ∈ seen)) as [Hn|Hn].
      * rewrite decide_True by (by apply elem_of_union_r).
        rewrite (filter_cons_False _ e []), filter_nil, app_nil_r; [done|].
        intros <-. done.
      * assert (Hacc : filter (λ e0, twitch_irc.name e0 = n) acc = []).
        { apply elem_of_nil_inv. intros e0 He0.
          apply list_elem_of_filter in He0 as [<- He0]. apply Hn, Hseen.
          by apply list_elem_of_fmap_2. }
        destruct (decide (twitch_irc.name e = n)) as [Heq|Hne].
        -- rewrite decide_True
             by (by apply elem_of_union_l, elem_of_singleton).
           rewrite Hacc, !filter_cons_True by done. done.
        -- rewrite decide_False
             by (by intros [?%elem_of_singleton|?]%elem_of_union).
           by rewrite filter_cons_False.
Qed.

(** The merged list holds, for each name, the first of the native entries
    with that name or, when there is none, the first custom one. *)
Lemma merge_emotes_first n sentiment_words native customs :
  filter (λ e, twitch_irc.name e = n)
         (twitch_irc.merge_emotes sentiment_words native customs)
  = take 1 (filter (λ e, twitch_irc.name e = n)
              ((twitch_irc.twitch_entry sentiment_words <$> native)
               ++ (twitch_irc.custom_entry sentiment_words <$> customs))).
Proof.
  unfold twitch_irc.merge_emotes. rewrite <- foldl_app.
  rewrite add_emote_first by set_solver. by rewrite decide_False by set_solver.
Qed.

Lemma native_entry_first n sentiment_words native :
  n ∈ native.*2 →
  ∃ emote_id rest,
    (emote_id, n) ∈ native
    ∧ filter (λ e, twitch_irc.name e = n)
             (twitch_irc.twitch_entry sentiment_words <$> native)
      = twitch_irc.twitch_entry sentiment_words (emote_id, n) :: rest.
Proof.
  induction native as [|[i m] native IH]; intros Hn.
  - by apply elem_of_nil in Hn.
  - rewrite fmap_cons. destruct (decide (m = n)) as [->|Hne].
    + exists i. eexists. split; [left|]. by rewrite filter_cons_True.
    + rewrite fmap_cons in Hn. apply elem_of_cons in Hn as [Heq|Hn].
      { by simpl in Heq. }
      destruct (IH Hn) as (i' & rest & Hin & Hf). exists i', rest.
      split; [by right|]. by rewrite filter_cons_False.
Qed.

(** What [event_message_with] puts in the payload. *)
Lemma event_message_with_payload analyze scores bot message :
  twitch_irc.echo message = false →
  twitch_irc.content message ≠ "" →
  ∃ payload,
    twitch_irc.event_message_with analyze scores bot message
    = Some (twitch_irc.chat_message payload)
    ∧ twitch_irc.p_content payload = twitch_irc.content message
    ∧ (twitch_irc.p_sentiment_score payload,
       twitch_irc.p_sentiment_words payload)
      = match analyze (twitch_irc.content message) with
        | Py.Returned r => r
        | Py.Raised => (Some float_zero, ∅)
        end
    ∧ twitch_irc.p_detected_emotes payload
      = twitch_irc.merge_emotes (twitch_irc.p_sentiment_words payload)
          (twitch_irc.message_native_tags message)
          (emote_handler.detect_emotes_in_message scores
             (twitch_irc.content message) (twitch_irc.ffz_emotes bot)
             (twitch_irc.seventv_channel_emotes bot)
             (twitch_irc.seventv_global_emotes bot)).
Proof.
  intros Hecho Hcontent. unfold twitch_irc.event_message_with.
  rewrite Hecho. destruct (twitch_irc.content message) eqn:Hc; [done|].
  simpl. destruct (match analyze _ with Py.Returned r => r | _ => _ end)
    as [score words]. eexists. split; [done|]. simpl. done.
Qed.

(** C7: when a name is reported by the native tag and by the custom
    detection, the emitted list has exactly one entry with that name: the
    native one, of type "twitch", at the Twitch CDN address of its emote id,
    [https://static-cdn.jtvnw.net/emoticons/v2/<id>/default/dark/1.0]. *)
Theorem native_tag_wins scores bot message payload n :
  twitch_irc.enrich scores bot message
    = Some (twitch_irc.chat_message payload) →
  n ∈ (twitch_irc.message_native_tags message).*2 →
  n ∈ emote_handler.name <$>
        emote_handler.detect_emotes_in_message scores
          (twitch_irc.content message) (twitch_irc.ffz_emotes bot)
          (twitch_irc.seventv_channel_emotes bot)
          (twitch_irc.seventv_global_emotes bot) →
  ∃ emote_id,
    (emote_id, n) ∈ twitch_irc.message_native_tags message
    ∧ filter (λ e, twitch_irc.name e = n)
             (twitch_irc.p_detected_emotes payload)
      = [ {| twitch_irc.name := n;
             twitch_irc.url :=
               "https://static-cdn.jtvnw.net/emoticons/v2/" +:+ emote_id
                 +:+ "/default/dark/1.0";
             twitch_irc.type := "twitch";
             twitch_irc.sentiment_score :=
               twitch_irc.p_sentiment_words payload !! n |} ].
Proof.
  intros Hen Hnative _. unfold twitch_irc.enrich in Hen.
  assert (Hecho : twitch_irc.echo message = false).
  { unfold twitch_irc.event_message_with in Hen.
    by destruct (twitch_irc.echo message). }
  assert (Hcontent : twitch_irc.content message ≠ "").
  { unfold twitch_irc.event_message_with in Hen. rewrite Hecho in Hen.
    by destruct (twitch_irc.content message). }
  destruct (event_message_with_payload
              (λ text, Py.Returned (nlp_processor.analyze_sentiment scores text))
              scores bot message Hecho Hcontent)
    as (payload' & Hp & _ & _ & Hd).
  rewrite Hp in Hen. injection Hen as <-.
  destruct (native_entry_first n (twitch_irc.p_sentiment_words payload')
              _ Hnative) as (emote_id & rest & Hin & Hf).
  exists emote_id. split; [done|].
  by rewrite Hd, merge_emotes_first, filter_app, Hf.
Qed.

End enrichment.

(** [native_tag_wins] on "hello Kappa LUL" with Kappa tagged by Twitch as
    its emote 25 and known to FFZ. *)
Lemma native_tag_wins_witness :
  ∃ payload,
    @twitch_irc.enrich _ scenario.calm_vader scenario.no_nltk
      scenario.catalog scenario.foo_bot scenario.kappa_message
    = Some (twitch_irc.chat_message payload)
    ∧ filter (λ e, twitch_irc.name e = "Kappa")
             (twitch_irc.p_detected_emotes payload)
      = [ {| twitch_irc.name := "Kappa";
             twitch_irc.url :=
               "https://static-cdn.jtvnw.net/emoticons/v2/25/default/dark/1.0";
             twitch_irc.type := "twitch";
             twitch_irc.sentiment_score :=
               twitch_irc.p_sentiment_words payload !! "Kappa" |} ].
Proof.
  destruct (@event_message_with_payload _ scenario.no_nltk
              (λ text, Py.Returned
                 (@nlp_processor.analyze_sentiment _ scenario.calm_vader
                    scenario.catalog text))
              scenario.catalog scenario.foo_bot scenario.kappa_message)
    as (payload & Hen & _); [reflexivity | discriminate |].
  exists payload.
  destruct (@native_tag_wins _ scenario.calm_vader scenario.no_nltk
              scenario.catalog scenario.foo_bot scenario.kappa_message
              payload "Kappa" Hen) as (emote_id & Hin & Hf).
  - vm_compute. left.
  - vm_compute. left.
  - assert (Hid : emote_id = "25").
    { vm_compute in Hin. apply list_elem_of_singleton in Hin.
      by injection Hin as ->. }
    rewrite Hid in Hf. by split.
Defined.

Example kappa_message_enriched :
  let detected :=
    match @twitch_irc.enrich _ scenario.calm_vader scenario.no_nltk
            scenario.catalog scenario.foo_bot scenario.kappa_message with
    | Some (twitch_irc.chat_message payload) =>
        twitch_irc.p_detected_emotes payload
    | _ => []
    end in
  twitch_irc.name <$> detected = ["Kappa"; "LUL"]
  ∧ twitch_irc.type <$> detected = ["twitch"; "custom"]
  ∧ twitch_irc.url <$> detected
    = ["https://static-cdn.jtvnw.net/emoticons/v2/25/default/dark/1.0";
       "https://cdn.frankerfacez.com/LUL/1"]
  ∧ twitch_irc.sentiment_score <$> detected = [Some 300%Z; Some 700%Z].
Proof. split_and!; vm_compute; reflexivity. Qed.

(** ** Handling a raw event in the process *)
Section event_message.
Context `{Vader} `{!Nltk} `{!EmoteApis} `{!Env}.

(** Broadcasting touches the registry only. *)
Lemma broadcast_frame send_fails streamer_name ev (st : twitch_irc.backend) :
  let st' := (twitch_irc.broadcast send_fails streamer_name ev st).1 in
  twitch_irc.emote_sentiment_scores st' = twitch_irc.emote_sentiment_scores st
  ∧ twitch_irc.emote_caches st' = twitch_irc.emote_caches st
  ∧ twitch_irc.bots st' = twitch_irc.bots st
  ∧ twitch_irc.active_bots st' = twitch_irc.active_bots st.
Proof. done. Qed.

(** [event_message] reads the catalog and the bot, and writes neither. *)
Lemma event_message_frame send_fails (st : twitch_irc.backend) ref message :
  let st' := twitch_irc.after
               (twitch_irc.event_message send_fails st ref message) in
  twitch_irc.emote_sentiment_scores st' = twitch_irc.emote_sentiment_scores st
  ∧ twitch_irc.emote_caches st' = twitch_irc.emote_caches st
  ∧ twitch_irc.bots st' = twitch_irc.bots st
  ∧ twitch_irc.active_bots st' = twitch_irc.active_bots st.
Proof.
  unfold twitch_irc.event_message.
  destruct (twitch_irc.bots st !! ref) as [bot|]; [|done].
  by destruct (twitch_irc.enrich _ bot message).
Qed.

(** The enrichment reads three fields of the bot, and nothing else of it. *)
Lemma enrich_depends_on_mappings scores (bot bot' : twitch_irc.TwitchBot)
    message :
  twitch_irc.ffz_emotes bot' = twitch_irc.ffz_emotes bot →
  twitch_irc.seventv_channel_emotes bot'
    = twitch_irc.seventv_channel_emotes bot →
  twitch_irc.seventv_global_emotes bot'
    = twitch_irc.seventv_global_emotes bot →
  twitch_irc.enrich scores bot' message = twitch_irc.enrich scores bot message.
Proof.
  intros Hf Hc Hg. unfold twitch_irc.enrich, twitch_irc.event_message_with.
  by rewrite Hf, Hc, Hg.
Qed.

(** C9: the enriched message is a function of the raw event and of the emote
    snapshot. Two handlings of the same raw event, in processes that have the
    same sentiment catalog and by bots that hold the same three mappings,
    emit the same event (the same compound score, per-token scores, keywords
    and list of detected emotes), whatever else differs: the registry, the
    clients that fail, the caches, the other fields of the bots. And a
    handling leaves the catalog and the bots as they were, so the snapshot
    is the same for the next one. *)
Theorem enrichment_deterministic send_fails send_fails'
    (st st' : twitch_irc.backend) ref ref' bot bot' message :
  twitch_irc.bots st !! ref = Some bot →
  twitch_irc.bots st' !! ref' = Some bot' →
  twitch_irc.emote_sentiment_scores st' = twitch_irc.emote_sentiment_scores st →
  twitch_irc.ffz_emotes bot' = twitch_irc.ffz_emotes bot →
  twitch_irc.seventv_channel_emotes bot'
    = twitch_irc.seventv_channel_emotes bot →
  twitch_irc.seventv_global_emotes bot'
    = twitch_irc.seventv_global_emotes bot →
  twitch_irc.emitted (twitch_irc.event_message send_fails' st' ref' message)
  = twitch_irc.emitted (twitch_irc.event_message send_fails st ref message)
  ∧ twitch_irc.emote_sentiment_scores
      (twitch_irc.after (twitch_irc.event_message send_fails st ref message))
    = twitch_irc.emote_sentiment_scores st
  ∧ twitch_irc.bots
      (twitch_irc.after (twitch_irc.event_message send_fails st ref message))
    = twitch_irc.bots st.
Proof.
  intros Hb Hb' Hs Hf Hc Hg. split.
  - unfold twitch_irc.event_message. rewrite Hb, Hb', Hs.
    rewrite (enrich_depends_on_mappings _ bot bot') by done.
    by destruct (twitch_irc.enrich _ bot message).
  - destruct (event_message_frame send_fails st ref message)
      as (Hs1 & _ & Hb1 & _). done.
Qed.

(** Handling the same raw event again, in the process as the first handling
    left it, emits the same event. *)
Lemma event_message_again send_fails send_fails' (st : twitch_irc.backend)
    ref message :
  twitch_irc.emitted
    (twitch_irc.event_message send_fails'
       (twitch_irc.after (twitch_irc.event_message send_fails st ref message))
       ref message)
  = twitch_irc.emitted (twitch_irc.event_message send_fails st ref message).
Proof.
  destruct (event_message_frame send_fails st ref message)
    as (Hs & _ & Hb & _). cbv zeta in Hs, Hb.
  unfold twitch_irc.event_message at 1 3. rewrite Hs, Hb.
  destruct (twitch_irc.bots st !! ref) as [bot|]; [|done].
  by destruct (twitch_irc.enrich _ bot message).
Qed.



End event_message.

(** [enrichment_deterministic] on "hello Kappa LUL": once with a client that
    receives, once in a process without clients. *)
Lemma enrichment_deterministic_witness :
  twitch_irc.emitted
    (@twitch_irc.event_message _ scenario.calm_vader scenario.no_nltk
       (λ _, true)
       (twitch_irc.set_connections scenario.foo_backend ∅) 0
       scenario.kappa_message)
  = twitch_irc.emitted
      (@twitch_irc.event_message _ scenario.calm_vader scenario.no_nltk
         (λ _, false) scenario.foo_backend 0 scenario.kappa_message).
Proof.
  apply (@enrichment_deterministic _ scenario.calm_vader scenario.no_nltk
           (λ _, false) (λ _, true) scenario.foo_backend
           (twitch_irc.set_connections scenario.foo_backend ∅) 0 0
           scenario.foo_bot scenario.foo_bot scenario.kappa_message);
    reflexivity.
Defined.



(** ** Acquiring and releasing the bot of a channel *)
Section lifecycle.
Context `{Vader} `{!Nltk} `{!EmoteApis} `{!Env}.
Implicit Types (st : twitch_irc.backend) (sys : twitch_irc.system).

Lemma elem_of_list_insert_inv {A} (l : list A) i x y :
  y ∈ <[i := x]> l → y = x ∨ y ∈ l.
Proof.
  revert i. induction l as [|z l IH]; intros i Hy; [by right|].
  destruct i as [|i]; simpl in Hy.
  - apply elem_of_cons in Hy as [->|Hy]; [by left|]. right. by right.
  - apply elem_of_cons in Hy as [->|Hy]; [right; by left|].
    destruct (IH _ Hy) as [->|Hin]; [by left|]. right. by right.
Qed.

(** The constructor of the bot, by the token. *)
Lemma create_bot_with_token streamer_name st :
  Py.truthy TWITCH_ACCESS_TOKEN = true →
  twitch_irc.create_bot streamer_name st
  = (twitch_irc.set_bots st
       (twitch_irc.bots st ++ [twitch_irc.TwitchBot_init streamer_name])
       (<[streamer_name := length (twitch_irc.bots st)]>
          (twitch_irc.active_bots st)),
     twitch_irc.start_returned (length (twitch_irc.bots st))).
Proof.
  intros Htok.
  unfold twitch_irc.create_bot, twitch_irc.new_TwitchBot, twitch_irc.irc_token.
  by rewrite Htok.
Qed.

Lemma create_bot_anonymous streamer_name st :
  Py.truthy TWITCH_ACCESS_TOKEN = false →
  twitch_irc.create_bot streamer_name st = (st, twitch_irc.start_raised).
Proof.
  intros Htok.
  unfold twitch_irc.create_bot, twitch_irc.new_TwitchBot, twitch_irc.irc_token.
  by rewrite Htok.
Qed.

Lemma serialized_step send_fails st0 streamer_name sys i :
  Py.truthy TWITCH_ACCESS_TOKEN = true →
  twitch_irc.serialized st0 streamer_name sys →
  twitch_irc.serialized st0 streamer_name
    (twitch_irc.schedule_step send_fails streamer_name sys i).
Proof.
  intros Htok Hinv. unfold twitch_irc.schedule_step.
  destruct (twitch_irc.callers sys !! i) as [pc|] eqn:Hpc; [|done].
  assert (Hin : pc ∈ twitch_irc.callers sys) by by eapply list_elem_of_lookup_2.
  destruct Hinv as [(Hnone & Hbots & Hall)|(Hsome & Hbots & Hall)].
  - rewrite (Hall pc Hin). unfold twitch_irc.start_step.
    rewrite Hnone, Htok. simpl negb. cbv iota.
    rewrite create_bot_with_token by done.
    right. simpl. rewrite Hbots. split_and!.
    + by rewrite lookup_insert_eq.
    + done.
    + intros pc' Hpc'. apply elem_of_list_insert_inv in Hpc' as [->|Hpc'].
      * by right; right.
      * left. by apply Hall.
  - right.
    assert (Hcase : ∀ st' pc',
      twitch_irc.active_bots st'
        = twitch_irc.active_bots (twitch_irc.shared sys) →
      twitch_irc.bots st' = twitch_irc.bots (twitch_irc.shared sys) →
      (pc' = twitch_irc.start_entry ∨ pc' = twitch_irc.start_already_running
       ∨ pc' = twitch_irc.start_returned (length (twitch_irc.bots st0))) →
      twitch_irc.active_bots st' !! Py.lower streamer_name
        = Some (length (twitch_irc.bots st0))
      ∧ twitch_irc.bots st'
        = twitch_irc.bots st0
            ++ [twitch_irc.TwitchBot_init (Py.lower streamer_name)]
      ∧ ∀ pc0, pc0 ∈ <[i := pc']> (twitch_irc.callers sys) →
          pc0 = twitch_irc.start_entry
          ∨ pc0 = twitch_irc.start_already_running
          ∨ pc0 = twitch_irc.start_returned (length (twitch_irc.bots st0))).
    { intros st' pc' Ha Hb Hpc'. rewrite Ha, Hb. split_and!; [done..|].
      intros pc0 Hpc0. apply elem_of_list_insert_inv in Hpc0 as [->|Hpc0].
      - done.
      - by apply Hall. }
    destruct (Hall pc Hin) as [->|[->| ->]]; unfold twitch_irc.start_step;
      rewrite ?Hsome; simpl; apply Hcase; auto.
Qed.

(** With a token set there is no [await] between the test of [active_bots]
    and the registration, and the callers are serialized under every
    schedule: at most one bot is created, and every caller that has returned
    holds that bot. *)
Lemma start_serialized_with_token send_fails st0 streamer_name n schedule :
  Py.truthy TWITCH_ACCESS_TOKEN = true →
  twitch_irc.active_bots st0 !! Py.lower streamer_name = None →
  twitch_irc.serialized st0 streamer_name
    (twitch_irc.run_schedule send_fails streamer_name schedule
       (twitch_irc.spawn n st0)).
Proof.
  intros Htok Hnone. unfold twitch_irc.run_schedule.
  assert (Hinit : twitch_irc.serialized st0 streamer_name
                    (twitch_irc.spawn n st0)).
  { left. split_and!; [done..|]. intros pc Hpc. simpl in Hpc.
    by apply elem_of_replicate in Hpc as [-> _]. }
  revert Hinit. generalize (twitch_irc.spawn n st0) as sys.
  induction schedule as [|i schedule IH]; intros sys Hinv; [done|].
  simpl. apply IH. by apply serialized_step.
Qed.

(** C1 on the code, at the failing input: no token is set. A caller that
    sees no bot for the channel suspends in the broadcast of the
    anonymous-login warning and then calls the constructor, which raises on
    the missing token. Under every schedule and for any number of callers no
    bot is constructed, none is registered, and no caller returns a handle:
    each one is still at its entry, or suspended in the warning, or has
    raised. *)
Theorem anonymous_start_raises send_fails st0 streamer_name n schedule :
  Py.truthy TWITCH_ACCESS_TOKEN = false →
  twitch_irc.active_bots st0 !! Py.lower streamer_name = None →
  let sys := twitch_irc.run_schedule send_fails streamer_name schedule
               (twitch_irc.spawn n st0) in
  twitch_irc.bots (twitch_irc.shared sys) = twitch_irc.bots st0
  ∧ twitch_irc.active_bots (twitch_irc.shared sys) = twitch_irc.active_bots st0
  ∧ ∀ pc, pc ∈ twitch_irc.callers sys →
      pc = twitch_irc.start_entry
      ∨ pc = twitch_irc.start_anonymous_warning
      ∨ pc = twitch_irc.start_raised.
Proof.
  intros Htok Hnone. cbv zeta. unfold twitch_irc.run_schedule.
  assert (Hinit :
    twitch_irc.bots (twitch_irc.shared (twitch_irc.spawn n st0))
      = twitch_irc.bots st0
    ∧ twitch_irc.active_bots (twitch_irc.shared (twitch_irc.spawn n st0))
      = twitch_irc.active_bots st0
    ∧ ∀ pc, pc ∈ twitch_irc.callers (twitch_irc.spawn n st0) →
        pc = twitch_irc.start_entry
        ∨ pc = twitch_irc.start_anonymous_warning
        ∨ pc = twitch_irc.start_raised).
  { split_and!; [done..|]. intros pc Hpc. simpl in Hpc.
    apply elem_of_replicate in Hpc as [-> _]. by left. }
  revert Hinit. generalize (twitch_irc.spawn n st0) as sys.
  induction schedule as [|i schedule IH]; intros sys Hinv; [done|].
  simpl. apply IH. clear IH. destruct Hinv as (Hbots & Hact & Hall).
  unfold twitch_irc.schedule_step.
  destruct (twitch_irc.callers sys !! i) as [pc|] eqn:Hpc; [|done].
  assert (Hin : pc ∈ twitch_irc.callers sys)
    by by eapply list_elem_of_lookup_2.
  assert (Hcase : ∀ st' pc',
    twitch_irc.bots st' = twitch_irc.bots (twitch_irc.shared sys) →
    twitch_irc.active_bots st'
      = twitch_irc.active_bots (twitch_irc.shared sys) →
    (pc' = twitch_irc.start_entry ∨ pc' = twitch_irc.start_anonymous_warning
     ∨ pc' = twitch_irc.start_raised) →
    twitch_irc.bots st' = twitch_irc.bots st0
    ∧ twitch_irc.active_bots st' = twitch_irc.active_bots st0
    ∧ ∀ pc0, pc0 ∈ <[i := pc']> (twitch_irc.callers sys) →
        pc0 = twitch_irc.start_entry
        ∨ pc0 = twitch_irc.start_anonymous_warning
        ∨ pc0 = twitch_irc.start_raised).
  { intros st' pc' Hb Ha Hpc'. rewrite Hb, Ha. split_and!; [done..|].
    intros pc0 Hpc0. apply elem_of_list_insert_inv in Hpc0 as [->|Hpc0].
    - done.
    - by apply Hall. }
  destruct (Hall pc Hin) as [->|[->| ->]]; unfold twitch_irc.start_step;
    rewrite ?Hact, ?Hnone, ?Htok, ?create_bot_anonymous by done; simpl;
    apply Hcase; auto.
Qed.
End lifecycle.

(** [start_serialized_with_token] for three callers and the schedule that
    lets each of them run once, then the first two again. *)
Lemma start_serialized_with_token_witness :
  @twitch_irc.serialized scenario.milli scenario.idle_backend "foo"
    (@twitch_irc.run_schedule scenario.milli scenario.with_token
       (λ _, false) "foo" [0; 1; 2; 0; 1] (twitch_irc.spawn 3 scenario.idle_backend)).
Proof.
  apply (@start_serialized_with_token scenario.milli scenario.with_token);
    reflexivity.
Defined.

Example three_callers_one_bot :
  let sys := @twitch_irc.run_schedule scenario.milli scenario.with_token
               (λ _, false) "foo" [0; 1; 2; 1; 2]
               (twitch_irc.spawn 3 scenario.idle_backend) in
  twitch_irc.callers sys
  = [twitch_irc.start_returned 0; twitch_irc.start_returned 0;
     twitch_irc.start_returned 0]
  ∧ length (twitch_irc.bots (twitch_irc.shared sys)) = 1.
Proof. by vm_compute. Qed.

(** [anonymous_start_raises] for two clients of "foo" whose calls are
    scheduled in turn. *)
Lemma anonymous_start_raises_witness :
  let st0 := twitch_irc.set_connections scenario.idle_backend
               {[ "foo" := [1; 2] ]} in
  let sys := @twitch_irc.run_schedule scenario.milli scenario.anonymous
               (λ _, false) "foo" [0; 1; 0; 1] (twitch_irc.spawn 2 st0) in
  twitch_irc.bots (twitch_irc.shared sys) = twitch_irc.bots st0
  ∧ twitch_irc.active_bots (twitch_irc.shared sys) = twitch_irc.active_bots st0
  ∧ ∀ pc, pc ∈ twitch_irc.callers sys →
      pc = twitch_irc.start_entry
      ∨ pc = twitch_irc.start_anonymous_warning
      ∨ pc = twitch_irc.start_raised.
Proof.
  apply (@anonymous_start_raises scenario.milli scenario.anonymous);
    reflexivity.
Defined.

(** The same two calls, in turn and one after the other: both raise, and
    there is no bot. *)
Example anonymous_callers_raise :
  let st0 := twitch_irc.set_connections scenario.idle_backend
               {[ "foo" := [1; 2] ]} in
  let in_turn := @twitch_irc.run_schedule scenario.milli scenario.anonymous
                   (λ _, false) "foo" [0; 1; 0; 1] (twitch_irc.spawn 2 st0) in
  let in_a_row := @twitch_irc.run_schedule scenario.milli scenario.anonymous
                    (λ _, false) "foo" [0; 0; 1; 1] (twitch_irc.spawn 2 st0) in
  twitch_irc.callers in_turn
  = [twitch_irc.start_raised; twitch_irc.start_raised]
  ∧ twitch_irc.callers in_a_row
    = [twitch_irc.start_raised; twitch_irc.start_raised]
  ∧ length (twitch_irc.bots (twitch_irc.shared in_turn)) = 0
  ∧ length (twitch_irc.bots (twitch_irc.shared in_a_row)) = 0.
Proof. by vm_compute. Qed.

(** ** Teardown *)
Section teardown.
Context `{Vader} `{!Nltk} `{!EmoteApis} `{!Env}.
Implicit Types (st : twitch_irc.backend).

Lemma start_twitch_bot_fresh send_fails streamer_name st :
  Py.truthy TWITCH_ACCESS_TOKEN = true →
  twitch_irc.active_bots st !! Py.lower streamer_name = None →
  let r := twitch_irc.start_twitch_bot send_fails streamer_name st in
  r.2 = twitch_irc.start_returned (length (twitch_irc.bots st))
  ∧ twitch_irc.bots r.1
    = twitch_irc.bots st
        ++ [twitch_irc.TwitchBot_init (Py.lower streamer_name)]
  ∧ twitch_irc.active_bots r.1 !! Py.lower streamer_name
    = Some (length (twitch_irc.bots st)).
Proof.
  intros Htok Hnone.
  unfold twitch_irc.start_twitch_bot, twitch_irc.start_step.
  rewrite Hnone, Htok. simpl negb. cbv iota.
  rewrite create_bot_with_token by done. simpl.
  by rewrite lookup_insert_eq.
Qed.

(** When the last client of a channel leaves through the [finally] block of
    [websocket_endpoint], the bot is out of [active_bots] and closing before
    anything else can run; with a token set, the next [start_twitch_bot] for
    the channel constructs a new bot with empty mappings, and the old bot is
    not touched by it. *)
Lemma cleanup_then_fresh_bot send_fails ws streamer_name st old :
  Py.truthy TWITCH_ACCESS_TOKEN = true →
  Py.lower streamer_name = streamer_name →
  Py.strip streamer_name = streamer_name →
  twitch_irc.active_connections st !! streamer_name = Some [ws] →
  twitch_irc.active_bots st !! streamer_name = Some old →
  old < length (twitch_irc.bots st) →
  let r := main.websocket_cleanup ws streamer_name st in
  twitch_irc.active_connections r.1 !! streamer_name = None
  ∧ twitch_irc.active_bots r.1 !! streamer_name = None
  ∧ r.2 = Some (twitch_irc.stop_closing old)
  ∧ twitch_irc.connector <$> twitch_irc.bots r.1 !! old
    = Some twitch_irc.closing
  ∧ let s := twitch_irc.start_twitch_bot send_fails streamer_name r.1 in
    s.2 = twitch_irc.start_returned (length (twitch_irc.bots st))
    ∧ twitch_irc.bots s.1 !! length (twitch_irc.bots st)
      = Some (twitch_irc.TwitchBot_init streamer_name)
    ∧ twitch_irc.bots s.1 !! old = twitch_irc.bots r.1 !! old
    ∧ old ≠ length (twitch_irc.bots st).
Proof.
  intros Htok Hlow Hstrip Hconn Hbot Hold. unfold main.websocket_cleanup.
  rewrite Hlow, Hstrip. cbv zeta.
  pose proof (disconnect_last (twitch_irc.active_connections st) ws
                streamer_name) as Hd.
  rewrite Hlow in Hd. specialize (Hd Hconn). rewrite Hd.
  simpl twitch_irc.active_connections.
  rewrite lookup_delete_eq. unfold twitch_irc.stop_pop.
  rewrite Hlow. simpl. rewrite Hbot. simpl.
  destruct (lookup_lt_is_Some_2 (twitch_irc.bots st) old Hold) as [b Hb].
  match goal with |- context [twitch_irc.start_twitch_bot _ _ ?s] =>
    pose proof (start_twitch_bot_fresh send_fails streamer_name s Htok) as Hf
  end.
  rewrite Hlow in Hf. simpl in Hf. rewrite lookup_delete_eq in Hf.
  specialize (Hf eq_refl). destruct Hf as (Hr & Hbs & _).
  rewrite length_alter in Hr. split_and!.
  - apply lookup_delete_eq.
  - apply lookup_delete_eq.
  - done.
  - by rewrite list_lookup_alter_eq, Hb.
  - done.
  - rewrite Hbs, lookup_app_r by (by rewrite length_alter).
    by rewrite length_alter, Nat.sub_diag.
  - rewrite Hbs. apply lookup_app_l. by rewrite length_alter.
  - lia.
Qed.

End teardown.

(** [cleanup_then_fresh_bot] when client 1, the only one on "foo", leaves. *)
Lemma cleanup_then_fresh_bot_witness :
  let r := @main.websocket_cleanup scenario.milli 1 "foo"
             scenario.foo_backend in
  twitch_irc.active_bots r.1 !! "foo" = None
  ∧ (@twitch_irc.start_twitch_bot scenario.milli scenario.with_token
       (λ _, false) "foo" r.1).2
    = twitch_irc.start_returned 1.
Proof.
  destruct (@cleanup_then_fresh_bot scenario.milli scenario.with_token
              (λ _, false) 1 "foo" scenario.foo_backend 0)
    as (_ & Ha & _ & _ & Hs & _); [reflexivity..| |].
  - vm_compute. lia.
  - split; [exact Ha | exact Hs].
Defined.

(** C8 on the code, at the failing input: client 1 is the only subscriber of
    "foo" and its [send_json] raises during a broadcast. The broadcast
    removes the client, so "foo" has no subscriber and is not listed in the
    registry any more; but the bot is still in [active_bots] and its
    connector still runs. The next client that opens "foo" is handed this
    old bot: no new bot is constructed. This path does not read the token:
    it is so in every environment. *)
Theorem failed_send_leaves_bot_running (env : Env) :
  let st1 := (@twitch_irc.broadcast scenario.milli (λ _, true) "foo"
                (twitch_irc.status "FFZ/7TV emote data loaded.")
                scenario.foo_backend).1 in
  let r := @main.websocket_open scenario.milli env
             (λ _, false) true 2 "foo" st1 in
  twitch_irc.active_connections st1 !! "foo" = None
  ∧ twitch_irc.active_bots st1 !! "foo" = Some 0
  ∧ twitch_irc.connector <$> twitch_irc.bots st1 !! 0
    = Some twitch_irc.started
  ∧ r.2 = Some (twitch_irc.start_returned 0)
  ∧ twitch_irc.bots r.1 = [scenario.foo_bot].
Proof. by vm_compute. Qed.

(** ** The reload endpoint *)
Section reload.
Context `{Vader} `{!Nltk} `{!EmoteApis} `{!Env}.

(** C4, as the code has it: the reload endpoint empties the sentiment catalog,
    loads it again from the CSV file and returns the new number of catalog
    entries; the emote caches, the global one included, and the bots are as
    they were. *)
Theorem reload_emoji_sentiments_effect csv (st : twitch_irc.backend) :
  let r := main.reload_emoji_sentiments csv st in
  twitch_irc.emote_sentiment_scores r.1
    = nlp_processor.load_emote_sentiment_scores csv ∅
  ∧ main.emote_count r.2 = size (twitch_irc.emote_sentiment_scores r.1)
  ∧ main.success r.2 = true
  ∧ twitch_irc.emote_caches r.1 = twitch_irc.emote_caches st
  ∧ twitch_irc.bots r.1 = twitch_irc.bots st
  ∧ twitch_irc.active_bots r.1 = twitch_irc.active_bots st
  ∧ twitch_irc.active_connections r.1 = twitch_irc.active_connections st.
Proof. done. Qed.

End reload.

(** C4 fails as stated: after a reload the global emote cache still holds the
    mapping fetched before, and the next fetch for a channel returns that
    mapping, not the one the global source serves now. *)
Lemma reload_keeps_global_emote_cache :
  let r := @main.reload_emoji_sentiments scenario.milli
             (Some [(Some "Kappa", Some "300"); (Some "LUL", Some "x")])
             scenario.foo_backend in
  main.emote_count r.2 = 1
  ∧ emote_handler.seventv_global_cache (twitch_irc.emote_caches r.1) ≠ None
  ∧ (@emote_handler.fetch_all_emotes_for_channel scenario.all_sources
       (twitch_irc.emote_caches r.1) "foo" (Some "client") (Some "oauth:abc")).2.2
    = {[ "Old" := "https://cdn.7tv.app/Old/1x.webp" ]}
  ∧ (@emote_handler.fetch_all_emotes_for_channel scenario.all_sources
       (twitch_irc.emote_caches r.1) "foo" (Some "client") (Some "oauth:abc")).2.2
    ≠ @seventv_global scenario.all_sources.
Proof. split_and!; by vm_compute. Qed.

(** * Further properties *)

(** ** Channel names *)
Section names.

Lemma lower_char_idemp c : Py.lower_char (Py.lower_char c) = Py.lower_char c.
Proof. destruct c as [[] [] [] [] [] [] [] []]; reflexivity. Qed.

Lemma isspace_lower_char c : Py.isspace (Py.lower_char c) = Py.isspace c.
Proof. destruct c as [[] [] [] [] [] [] [] []]; reflexivity. Qed.

Lemma lower_idemp s : Py.lower (Py.lower s) = Py.lower s.
Proof.
  induction s as [|c s IH]; [done|]. simpl. by rewrite lower_char_idemp, IH.
Qed.

Lemma lower_rev_app s t :
  Py.lower (String.rev_app s t) = String.rev_app (Py.lower s) (Py.lower t).
Proof.
  revert t. induction s as [|c s IH]; intros t; [done|]. simpl.
  by rewrite IH.
Qed.

Lemma lower_lstrip s :
  Py.lower (Py.lstrip_by Py.isspace s) = Py.lstrip_by Py.isspace (Py.lower s).
Proof.
  induction s as [|c s IH]; [done|]. simpl. rewrite isspace_lower_char.
  by destruct (Py.isspace c).
Qed.

Lemma lower_strip s : Py.lower (Py.strip s) = Py.strip (Py.lower s).
Proof.
  unfold Py.strip, Py.strip_by, String.rev.
  by rewrite lower_rev_app, lower_lstrip, lower_rev_app, lower_lstrip.
Qed.

(** X1: the channel key that [websocket_endpoint] computes,
    [streamer_name.lower().strip()], is left as it is by the [lower()] that
    the registry and the bot manager apply to it again: all three address
    the same entry. *)
Theorem normalised_name_is_lowercase streamer_name :
  Py.lower (Py.strip (Py.lower streamer_name))
  = Py.strip (Py.lower streamer_name).
Proof. by rewrite lower_strip, lower_idemp. Qed.

End names.

(** ** More on the subscriber registry *)
Section registry_more.
Implicit Types (conns : websocket_manager.connections) (ws : nat).

Lemma disconnect_other conns ws streamer_name k :
  k ≠ Py.lower streamer_name →
  websocket_manager.disconnect ws streamer_name conns !! k = conns !! k.
Proof.
  intros Hk. unfold websocket_manager.disconnect.
  destruct (conns !! Py.lower streamer_name) as [clients|]; [|done].
  destruct (Py.list_remove ws clients) as [[|c rest]|]; [| |done].
  - by rewrite lookup_delete_ne.
  - by rewrite lookup_insert_ne.
Qed.

Lemma list_remove_middle ws (l1 l2 : list nat) :
  ws ∉ l1 → Py.list_remove ws (l1 ++ ws :: l2) = Some (l1 ++ l2).
Proof.
  induction l1 as [|y l1 IH]; intros Hn; simpl.
  - by rewrite decide_True.
  - apply not_elem_of_cons in Hn as [Hne Hn].
    rewrite decide_False by done. by rewrite IH.
Qed.

(** Disconnecting, one after the other, the failing clients of a list leaves
    the clients that do not fail, in their order. *)
Lemma disconnect_failed send_fails k (rest kept : list nat) conns :
  Py.lower k = k →
  (∀ c, c ∈ kept → send_fails c = false) →
  websocket_manager.subscribers conns k = kept ++ rest →
  websocket_manager.subscribers
    (foldl (λ c client, websocket_manager.disconnect client k c) conns
           (filter (λ c, send_fails c = true) rest)) k
  = kept ++ filter (λ c, send_fails c = false) rest.
Proof.
  intros Hk. revert kept conns.
  induction rest as [|y rest IH]; intros kept conns Hkept Hsub.
  - simpl. by rewrite Hsub.
  - destruct (send_fails y) eqn:Hy.
    + rewrite filter_cons_True by done.
      rewrite filter_cons_False by (by rewrite Hy). simpl.
      apply IH; [done|].
      unfold websocket_manager.subscribers in *.
      unfold websocket_manager.disconnect. rewrite Hk.
      destruct (conns !! k) as [clients|] eqn:Hl; simpl in Hsub.
      * subst clients. rewrite list_remove_middle; last first.
        { intros Hin. apply Hkept in Hin. congruence. }
        destruct (kept ++ rest) eqn:Hkr.
        -- by rewrite lookup_delete_eq.
        -- by rewrite lookup_insert_eq.
      * by destruct kept.
    + rewrite filter_cons_False by (by rewrite Hy).
      rewrite filter_cons_True by done.
      rewrite (IH (kept ++ [y]) conns).
      * by rewrite <- app_assoc.
      * intros c [Hc|Hc%list_elem_of_singleton]%elem_of_app; [eauto|by subst].
      * by rewrite <- app_assoc.
Qed.

Lemma disconnect_all_other (failed : list nat) conns streamer_name k :
  k ≠ Py.lower streamer_name →
  foldl (λ c client, websocket_manager.disconnect client streamer_name c)
        conns failed !! k
  = conns !! k.
Proof.
  intros Hk. revert conns. induction failed as [|x failed IH]; intros conns.
  - done.
  - simpl. by rewrite IH, disconnect_other.
Qed.

(** What a broadcast delivers and leaves. *)
Lemma broadcast_to_streamer_alive send_fails streamer_name conns :
  (websocket_manager.broadcast_to_streamer send_fails streamer_name conns).2
  = filter (λ c, send_fails c = false)
           (websocket_manager.subscribers conns (Py.lower streamer_name))
  ∧ websocket_manager.subscribers
      (websocket_manager.broadcast_to_streamer
         send_fails streamer_name conns).1
      (Py.lower streamer_name)
    = filter (λ c, send_fails c = false)
             (websocket_manager.subscribers conns (Py.lower streamer_name))
  ∧ ∀ k, k ≠ Py.lower streamer_name →
      (websocket_manager.broadcast_to_streamer
         send_fails streamer_name conns).1 !! k
      = conns !! k.
Proof.
  unfold websocket_manager.broadcast_to_streamer.
  unfold websocket_manager.subscribers at 1 3.
  destruct (conns !! Py.lower streamer_name) as [clients|] eqn:Hl; simpl.
  - split_and!.
    + done.
    + apply (disconnect_failed send_fails _ clients []).
      * apply lower_idemp.
      * intros c Hc. by apply elem_of_nil in Hc.
      * unfold websocket_manager.subscribers. by rewrite Hl.
    + intros k Hk. apply disconnect_all_other. by rewrite lower_idemp.
  - split_and!; [done| |done].
    unfold websocket_manager.subscribers. by rewrite Hl.
Qed.

(** X2: a broadcast delivers the message to the subscribers of the channel
    whose send does not fail, in their order, and exactly these remain
    subscribed afterwards; the entries of the other channels are not
    touched. *)
Theorem broadcast_to_streamer_effect send_fails streamer_name conns :
  let r := websocket_manager.broadcast_to_streamer
             send_fails streamer_name conns in
  let alive :=
    filter (λ c, send_fails c = false)
           (websocket_manager.subscribers conns (Py.lower streamer_name)) in
  r.2 = alive
  ∧ websocket_manager.subscribers r.1 (Py.lower streamer_name) = alive
  ∧ ∀ k, k ≠ Py.lower streamer_name → r.1 !! k = conns !! k.
Proof. cbv zeta. apply broadcast_to_streamer_alive. Qed.

(** X3: registering a client that is not yet subscribed and disconnecting it
    again gives back the registry, when every listed channel has a
    subscriber. *)
Theorem connect_disconnect conns conns' ws streamer_name :
  websocket_manager.registry_inv conns →
  ws ∉ websocket_manager.subscribers conns (Py.lower streamer_name) →
  websocket_manager.connect true ws streamer_name conns = Some conns' →
  websocket_manager.disconnect ws streamer_name conns' = conns.
Proof.
  intros Hinv Hn Hc. unfold websocket_manager.connect in Hc. simpl in Hc.
  injection Hc as <-. unfold websocket_manager.disconnect.
  rewrite lookup_insert_eq. unfold websocket_manager.subscribers in Hn.
  destruct (conns !! Py.lower streamer_name) as [clients|] eqn:Hl; simpl in *.
  - rewrite <- (app_nil_r (clients ++ [ws])), <- app_assoc. simpl.
    rewrite list_remove_middle by done. rewrite app_nil_r.
    destruct clients as [|c clients]; [by apply Hinv in Hl|].
    rewrite insert_insert_eq. by apply insert_id.
  - rewrite decide_True by done. rewrite delete_insert_eq. by apply delete_id.
Qed.

(** X4: the registry does not tell channel names apart by case: [connect],
    [disconnect] and [broadcast_to_streamer] do the same for a name and for
    its lower-case form. *)
Theorem registry_case_insensitive conns ws streamer_name send_fails accepted :
  websocket_manager.connect accepted ws (Py.lower streamer_name) conns
    = websocket_manager.connect accepted ws streamer_name conns
  ∧ websocket_manager.disconnect ws (Py.lower streamer_name) conns
    = websocket_manager.disconnect ws streamer_name conns
  ∧ websocket_manager.broadcast_to_streamer
      send_fails (Py.lower streamer_name) conns
    = websocket_manager.broadcast_to_streamer send_fails streamer_name conns.
Proof.
  unfold websocket_manager.connect, websocket_manager.disconnect,
    websocket_manager.broadcast_to_streamer.
  by rewrite !lower_idemp.
Qed.

Lemma lowercase_keys_insert {V} (m : gmap string V) k v :
  Py.lower k = k → Py.lowercase_keys m → Py.lowercase_keys (<[k := v]> m).
Proof.
  intros Hk Hm k' v' Hl. destruct (decide (k = k')) as [<-|Hne]; [done|].
  rewrite lookup_insert_ne in Hl by done. eauto.
Qed.

Lemma lowercase_keys_delete {V} (m : gmap string V) k :
  Py.lowercase_keys m → Py.lowercase_keys (delete k m).
Proof. intros Hm k' v' Hl. apply lookup_delete_Some in Hl as [_ Hl]. eauto. Qed.

Lemma disconnect_lowercase conns ws streamer_name :
  Py.lowercase_keys conns →
  Py.lowercase_keys (websocket_manager.disconnect ws streamer_name conns).
Proof.
  intros Hm. unfold websocket_manager.disconnect.
  destruct (conns !! Py.lower streamer_name) as [clients|]; [|done].
  destruct (Py.list_remove ws clients) as [[|c rest]|]; [| |done].
  - by apply lowercase_keys_delete.
  - apply lowercase_keys_insert; [apply lower_idemp | done].
Qed.

(** X5: the keys of the registry stay in lower case: if they all are, they
    all are after [connect], [disconnect] and [broadcast_to_streamer],
    whatever the case of the name these are called with. *)
Theorem registry_keys_lowercase conns :
  Py.lowercase_keys conns →
  (∀ ws streamer_name conns',
     websocket_manager.connect true ws streamer_name conns = Some conns' →
     Py.lowercase_keys conns')
  ∧ (∀ ws streamer_name,
       Py.lowercase_keys
         (websocket_manager.disconnect ws streamer_name conns))
  ∧ (∀ send_fails streamer_name,
       Py.lowercase_keys
         (websocket_manager.broadcast_to_streamer
            send_fails streamer_name conns).1).
Proof.
  intros Hm. split_and!.
  - intros ws n conns' Hc. unfold websocket_manager.connect in Hc.
    simpl in Hc. injection Hc as <-.
    apply lowercase_keys_insert; [apply lower_idemp | done].
  - intros ws n. by apply disconnect_lowercase.
  - intros f n. unfold websocket_manager.broadcast_to_streamer.
    destruct (conns !! Py.lower n) as [clients|]; [|done]. simpl.
    generalize (filter (λ c, f c = true) clients) as failed.
    intros failed. revert conns Hm.
    induction failed as [|x failed IH]; intros conns Hm; [done|].
    simpl. apply IH. by apply disconnect_lowercase.
Qed.

End registry_more.

Lemma registry_foo_inv :
  websocket_manager.registry_inv {[ "foo" := [1; 2] ]}
  ∧ Py.lowercase_keys ({[ "foo" := [1; 2] ]} : websocket_manager.connections).
Proof.
  split.
  - intros k l Hl. by apply lookup_singleton_Some in Hl as [_ <-].
  - intros k l Hl. by apply lookup_singleton_Some in Hl as [<- _].
Qed.

(** [connect_disconnect] for a third client on "foo". *)
Lemma connect_disconnect_witness :
  websocket_manager.disconnect 3 "Foo"
    (<[ "foo" := [1; 2; 3] ]> {[ "foo" := [1; 2] ]})
  = {[ "foo" := [1; 2] ]}.
Proof.
  apply connect_disconnect.
  - apply registry_foo_inv.
  - vm_compute. intros Hin. repeat (apply elem_of_cons in Hin as [Hin|Hin]; [done|]).
    by apply elem_of_nil in Hin.
  - unfold websocket_manager.connect. simpl Py.lower.
    by rewrite lookup_singleton_eq.
Defined.

(** [registry_keys_lowercase] for a broadcast to "FOO" with "foo" listed. *)
Lemma registry_keys_lowercase_witness :
  Py.lowercase_keys
    (websocket_manager.broadcast_to_streamer
       (λ ws, bool_decide (ws = 1)) "FOO" {[ "foo" := [1; 2] ]}).1.
Proof.
  destruct (registry_keys_lowercase {[ "foo" := [1; 2] ]}) as (_ & _ & Hb).
  - apply registry_foo_inv.
  - apply Hb.
Defined.

(** ** More on the sentiment analysis *)
Section sentiment.
Context `{Vader} `{!Nltk}.
Implicit Types (scores word_scores : gmap string float) (w : string).

(** After step 1 a token of the text has the catalog score of its own
    spelling or else of its lower-case form; other entries are as before. *)
Lemma csv_fold_lookup scores (ws : list string) word_scores w :
  foldl (λ word_scores word,
           match scores !! word with
           | Some x => <[word := x]> word_scores
           | None =>
               match scores !! Py.lower word with
               | Some x => <[word := x]> word_scores
               | None => word_scores
               end
           end) word_scores ws !! w
  = match (if decide (w ∈ ws)
           then match scores !! w with
                | Some x => Some x
                | None => scores !! Py.lower w
                end
           else None) with
    | Some x => Some x
    | None => word_scores !! w
    end.
Proof.
  revert word_scores. induction ws as [|w' ws IH]; intros word_scores.
  - cbn [foldl]. by rewrite decide_False by apply not_elem_of_nil.
  - cbn [foldl]. rewrite IH. destruct (decide (w = w')) as [<-|Hne].
    + rewrite (decide_True (P := w ∈ w :: ws)) by left.
      destruct (scores !! w) as [x|] eqn:Hw.
      { rewrite lookup_insert_eq. by destruct (decide (w ∈ ws)). }
      destruct (scores !! Py.lower w) as [x|] eqn:Hlw.
      { rewrite lookup_insert_eq. by destruct (decide (w ∈ ws)). }
      by destruct (decide (w ∈ ws)).
    + assert (Hsame : ∀ x, <[w' := x]> word_scores !! w = word_scores !! w)
        by (intros x; by rewrite lookup_insert_ne).
      destruct (decide (w ∈ ws)) as [Hin|Hout].
      * rewrite (decide_True (P := w ∈ w' :: ws)) by (by right).
        destruct (scores !! w), (scores !! Py.lower w), (scores !! w'),
          (scores !! Py.lower w'); by rewrite ?Hsame.
      * rewrite (decide_False (P := w ∈ w' :: ws)); last first.
        { intros [?|?]%elem_of_cons; done. }
        destruct (scores !! w'), (scores !! Py.lower w'); by rewrite ?Hsame.
Qed.

Lemma csv_scores_lookup scores (ws : list string) w :
  nlp_processor.csv_scores scores ws !! w
  = if decide (w ∈ ws)
    then match scores !! w with
         | Some x => Some x
         | None => scores !! Py.lower w
         end
    else None.
Proof.
  unfold nlp_processor.csv_scores. rewrite csv_fold_lookup, lookup_empty.
  destruct (decide (w ∈ ws)); [|done].
  by destruct (scores !! w), (scores !! Py.lower w).
Qed.

(** Step 3 never overwrites a score. *)
Lemma vader_scores_keep (ws : list string) word_scores w x :
  word_scores !! w = Some x →
  (nlp_processor.vader_scores ws word_scores).1 !! w = Some x.
Proof.
  revert word_scores. induction ws as [|w' ws IH]; intros m Hm; [done|].
  simpl. case_bool_decide as Hfree; [|by apply IH].
  destruct (polarity_compound w') as [c|]; [|done].
  apply IH. destruct (float_nonzero c); [|done].
  rewrite lookup_insert_ne; [done|]. intros ->. destruct Hfree. congruence.
Qed.

(** What step 3 adds is the rounded, non-neutral VADER score of a token
    that had no score. *)
Lemma vader_scores_sound (ws : list string) word_scores w x :
  (nlp_processor.vader_scores ws word_scores).1 !! w = Some x →
  word_scores !! w = Some x
  ∨ (word_scores !! w = None ∧ w ∈ ws
     ∧ ∃ c, polarity_compound w = Some c ∧ float_nonzero c = true
            ∧ x = float_round3 c).
Proof.
  revert word_scores. induction ws as [|w' ws IH]; intros m Hr; [by left|].
  simpl in Hr. case_bool_decide as Hfree.
  - destruct (polarity_compound w') as [c|] eqn:Hc; [|by left].
    destruct (float_nonzero c) eqn:Hnz.
    + destruct (IH _ Hr) as [Hm|(Hm & Hin & Hex)].
      * destruct (decide (w' = w)) as [->|Hne].
        -- rewrite lookup_insert_eq in Hm. injection Hm as <-. right.
           split_and!; [by destruct Hfree | left | eauto].
        -- rewrite lookup_insert_ne in Hm by done. by left.
      * right. split_and!; [|by right|done].
        destruct (decide (w' = w)) as [->|Hne]; [by destruct Hfree|].
        by rewrite lookup_insert_ne in Hm.
    + destruct (IH _ Hr) as [Hm|(Hm & Hin & Hex)]; [by left|].
      right. split_and!; [done|by right|done].
  - destruct (IH _ Hr) as [Hm|(Hm & Hin & Hex)]; [by left|].
    right. split_and!; [done|by right|done].
Qed.

Lemma vader_scores_complete (ws : list string) word_scores :
  (∀ w, w ∈ ws → is_Some (polarity_compound w)) →
  (nlp_processor.vader_scores ws word_scores).2 = true.
Proof.
  revert word_scores. induction ws as [|w' ws IH]; intros m Hall; [done|].
  simpl. assert (Hrest : ∀ w, w ∈ ws → is_Some (polarity_compound w))
    by (intros w Hw; apply Hall; by right).
  case_bool_decide; [|by apply IH].
  destruct (Hall w' ltac:(left)) as [c Hc]. rewrite Hc. by apply IH.
Qed.

Lemma split_empty : Py.split "" = [].
Proof. reflexivity. Qed.

Lemma analyze_sentiment_words scores text :
  ∃ flag : bool,
    (nlp_processor.analyze_sentiment scores text).2
    = if flag
      then (nlp_processor.vader_scores (Py.split text)
              (nlp_processor.csv_scores scores (Py.split text))).1
      else nlp_processor.csv_scores scores (Py.split text).
Proof.
  unfold nlp_processor.analyze_sentiment. destruct text as [|a text].
  - exists false. by rewrite split_empty.
  - simpl Py.truthy. simpl negb. cbv iota.
    destruct (polarity_compound (String a text)); [|by exists false].
    exists true. by destruct (nlp_processor.vader_scores _ _) as [m []].
Qed.

(** X6: the catalog has precedence. A token of the text that is in the
    sentiment catalog, in its own spelling or else in lower case, has the
    catalog's score in the per-token scores, whatever VADER says of it and
    even when VADER raises. *)
Theorem catalog_score_has_precedence scores text w x :
  w ∈ Py.split text →
  scores !! w = Some x ∨ (scores !! w = None ∧ scores !! Py.lower w = Some x) →
  (nlp_processor.analyze_sentiment scores text).2 !! w = Some x.
Proof.
  intros Hin Hcat.
  assert (Hcsv : nlp_processor.csv_scores scores (Py.split text) !! w = Some x).
  { rewrite csv_scores_lookup, decide_True by done.
    by destruct Hcat as [->|[-> ->]]. }
  destruct (analyze_sentiment_words scores text) as [[] ->]; [|done].
  by apply vader_scores_keep.
Qed.

(** X7: every per-token score belongs to a token of the text and is either
    its catalog score or, for a token without one, the rounded VADER score of
    that token alone, which is then not neutral. *)
Theorem token_scores_sound scores text w x :
  (nlp_processor.analyze_sentiment scores text).2 !! w = Some x →
  w ∈ Py.split text
  ∧ (match scores !! w with
     | Some y => Some y
     | None => scores !! Py.lower w
     end = Some x
     ∨ (scores !! w = None ∧ scores !! Py.lower w = None
        ∧ ∃ c, polarity_compound w = Some c ∧ float_nonzero c = true
               ∧ x = float_round3 c)).
Proof.
  intros Hr.
  assert (Hcsv : ∀ y,
    nlp_processor.csv_scores scores (Py.split text) !! w = Some y →
    w ∈ Py.split text
    ∧ match scores !! w with
      | Some y => Some y
      | None => scores !! Py.lower w
      end = Some y).
  { intros y Hy. rewrite csv_scores_lookup in Hy.
    by destruct (decide (w ∈ Py.split text)). }
  destruct (analyze_sentiment_words scores text) as [[] Hw];
    rewrite Hw in Hr.
  - apply vader_scores_sound in Hr as [Hm|(Hm & Hin & Hex)].
    + destruct (Hcsv _ Hm). auto.
    + split; [done|]. right. rewrite csv_scores_lookup in Hm.
      rewrite decide_True in Hm by done.
      destruct (scores !! w); [done|]. auto.
  - destruct (Hcsv _ Hr). auto.
Qed.

(** X8: when VADER raises neither on the text nor on any of its tokens, the
    compound score of a text that is not empty is the rounded VADER compound
    of the whole text. *)
Theorem compound_score_when_scorer_works scores text c :
  text ≠ "" →
  polarity_compound text = Some c →
  (∀ w, w ∈ Py.split text → is_Some (polarity_compound w)) →
  (nlp_processor.analyze_sentiment scores text).1 = Some (float_round3 c).
Proof.
  intros Ht Hc Hall. unfold nlp_processor.analyze_sentiment.
  destruct text as [|a text]; [done|]. simpl Py.truthy. simpl negb. cbv iota.
  rewrite Hc.
  pose proof (vader_scores_complete (Py.split (String a text))
                (nlp_processor.csv_scores scores (Py.split (String a text)))
                Hall) as Hflag.
  destruct (nlp_processor.vader_scores _ _) as [m flag]. simpl in Hflag.
  by rewrite Hflag.
Qed.

End sentiment.

(** ** More on the sentiment catalog and the keywords *)
Section catalog.
Context `{Vader} `{!Nltk} `{!EmoteApis} `{!Env}.
Implicit Types (scores : gmap string float) (rows : list nlp_processor.csv_row).

Lemma load_row_size scores (row : nlp_processor.csv_row) :
  size (nlp_processor.load_row scores row) ≤ S (size scores).
Proof.
  unfold nlp_processor.load_row. destruct row as [[n|] [s|]]; try lia.
  destruct (Py.truthy n && Py.truthy s); [|lia].
  destruct (float_of_str s) as [x|]; [|lia].
  rewrite map_size_insert. destruct (scores !! n); simpl; lia.
Qed.

Lemma load_rows_size rows scores :
  size (foldl nlp_processor.load_row scores rows) ≤ size scores + length rows.
Proof.
  revert scores. induction rows as [|row rows IH]; intros scores; simpl.
  - lia.
  - etrans; [apply IH|]. pose proof (load_row_size scores row). lia.
Qed.

Lemma load_row_other scores (row : nlp_processor.csv_row) n :
  row.1 ≠ Some n →
  nlp_processor.load_row scores row !! n = scores !! n.
Proof.
  unfold nlp_processor.load_row. destruct row as [[n'|] [s|]]; try done.
  simpl. intros Hne. destruct (Py.truthy n' && Py.truthy s); [|done].
  destruct (float_of_str s); [|done]. rewrite lookup_insert_ne; congruence.
Qed.

Lemma load_rows_other rows scores n :
  (∀ row, row ∈ rows → row.1 ≠ Some n) →
  foldl nlp_processor.load_row scores rows !! n = scores !! n.
Proof.
  revert scores. induction rows as [|row rows IH]; intros scores Hall; [done|].
  simpl. rewrite IH by (intros r Hr; apply Hall; by right).
  apply load_row_other, Hall. left.
Qed.

(** X9: the number of entries that the reload endpoint reports is at most
    the number of rows of the CSV file, and it is 0, with an empty catalog,
    when the file does not exist. *)
Theorem reload_count_bounded csv (st : twitch_irc.backend) :
  main.emote_count (main.reload_emoji_sentiments csv st).2
    ≤ length (default [] csv)
  ∧ (csv = None →
     main.emote_count (main.reload_emoji_sentiments csv st).2 = 0
     ∧ twitch_irc.emote_sentiment_scores
         (main.reload_emoji_sentiments csv st).1 = ∅).
Proof.
  split.
  - unfold main.reload_emoji_sentiments,
      nlp_processor.reload_emote_sentiment_scores,
      nlp_processor.load_emote_sentiment_scores. simpl.
    destruct csv as [rows|]; simpl.
    + etrans; [apply load_rows_size|]. by rewrite map_size_empty.
    + by rewrite map_size_empty.
  - intros ->. split; [|done]. simpl. apply map_size_empty.
Qed.

(** X10: when the CSV file names an emote in several rows, the last row with
    a name, a score text and a score that [float] accepts is the one that
    counts. *)
Theorem load_last_row_wins rows1 rows2 scores emote_name score_text x :
  Py.truthy emote_name = true →
  Py.truthy score_text = true →
  float_of_str score_text = Some x →
  (∀ row, row ∈ rows2 → row.1 ≠ Some emote_name) →
  nlp_processor.load_emote_sentiment_scores
    (Some (rows1 ++ (Some emote_name, Some score_text) :: rows2)) scores
  !! emote_name
  = Some x.
Proof.
  intros Hn Hs Hx Hrest. unfold nlp_processor.load_emote_sentiment_scores.
  rewrite foldl_app. simpl. rewrite load_rows_other by done.
  unfold nlp_processor.load_row. rewrite Hn, Hs, Hx. simpl.
  apply lookup_insert_eq.
Qed.

(** The distinct keywords of a frequency distribution. *)
Lemma freq_add_keys kw (fd : list (string * nat)) :
  (nlp_processor.freq_add kw fd).*1
  = if decide (kw ∈ fd.*1) then fd.*1 else fd.*1 ++ [kw].
Proof.
  induction fd as [|[k n] fd IH]; [done|].
  cbn [nlp_processor.freq_add]. rewrite (fmap_cons fst (k, n) fd). cbn [fst].
  destruct (decide (k = kw)) as [->|Hne].
  - rewrite fmap_cons. cbn [fst]. by rewrite decide_True by left.
  - rewrite fmap_cons, IH. cbn [fst].
    destruct (decide (kw ∈ fd.*1)) as [Hin|Hout].
    + by rewrite decide_True by (by right).
    + rewrite decide_False; [done|]. by intros [?|?]%elem_of_cons.
Qed.

Lemma FreqDist_NoDup (keywords : list string) :
  NoDup (nlp_processor.FreqDist keywords).*1.
Proof.
  unfold nlp_processor.FreqDist.
  assert (Hgen : ∀ fd : list (string * nat),
    NoDup fd.*1 →
    NoDup (foldl (λ fd kw, nlp_processor.freq_add kw fd) fd keywords).*1).
  { induction keywords as [|kw keywords IH]; intros fd Hfd; [done|].
    simpl. apply IH. rewrite freq_add_keys.
    destruct (decide (kw ∈ fd.*1)); [done|].
    apply NoDup_app. split_and!; [done| |apply NoDup_singleton].
    intros x Hx ->%list_elem_of_singleton. done. }
  apply Hgen. constructor.
Qed.

Lemma insert_by_count_perm e (l : list (string * nat)) :
  nlp_processor.insert_by_count e l ≡ₚ e :: l.
Proof.
  induction l as [|e' l IH]; simpl; [done|].
  destruct (e'.2 <? e.2); [done|]. rewrite IH. apply Permutation_swap.
Qed.

Lemma sorted_by_count_perm (fd acc : list (string * nat)) :
  foldl (λ sorted e, nlp_processor.insert_by_count e sorted) acc fd
  ≡ₚ fd ++ acc.
Proof.
  revert acc. induction fd as [|e fd IH]; intros acc; simpl; [done|].
  rewrite IH, insert_by_count_perm. by rewrite Permutation_middle.
Qed.

(** X11: [extract_keywords] returns at most [max_keywords] keywords and
    never the same keyword twice; it returns none when the NLTK data is
    missing. *)
Theorem extract_keywords_bounded text max_keywords :
  length (nlp_processor.extract_keywords text max_keywords) ≤ max_keywords
  ∧ NoDup (nlp_processor.extract_keywords text max_keywords)
  ∧ (NLTK_DATA_READY = false →
     nlp_processor.extract_keywords text max_keywords = []).
Proof.
  unfold nlp_processor.extract_keywords.
  destruct NLTK_DATA_READY; simpl; [|by split_and!; [lia|constructor|]].
  destruct (pos_tag _) as [tagged|]; [|by split_and!; [simpl; lia|constructor|]].
  destruct (mapM _ _) as [keywords|];
    [|by split_and!; [simpl; lia|constructor|]].
  unfold nlp_processor.most_common. split_and!; [| |done].
  - rewrite length_fmap, length_take. lia.
  - eapply sublist_NoDup; [|apply fmap_sublist, sublist_take].
    rewrite sorted_by_count_perm, app_nil_r. apply FreqDist_NoDup.
Qed.

End catalog.

(** ** More on the emote directory *)
Section directory.
Context `{PyFloat}.
Implicit Types (ffz seventv glob : EmoteSet) (scores : gmap string float).

(** X12: the detections follow the text: their names are the tokens of the
    text that are in the merged mapping and in the sentiment catalog, in the
    order of the text and once for each occurrence. *)
Theorem detect_emotes_in_text_order scores text ffz seventv glob :
  emote_handler.name <$>
    emote_handler.detect_emotes_in_message scores text ffz seventv glob
  = filter (λ w, is_Some (emote_handler.combined_emotes ffz seventv glob !! w)
                 ∧ is_Some (scores !! w))
           (Py.split text).
Proof.
  rewrite detect_emotes_flat.
  generalize (emote_handler.combined_emotes ffz seventv glob) as combined.
  intros combined. induction (Py.split text) as [|w ws IH]; [done|].
  rewrite bind_cons, fmap_app, IH. unfold emote_handler.detect_word.
  destruct (combined !! w) as [u|] eqn:Hu.
  - destruct (scores !! w) as [x|] eqn:Hx.
    + rewrite filter_cons_True; [done|]. rewrite Hu, Hx. eauto.
    + rewrite filter_cons_False; [done|]. rewrite Hx.
      intros [_ []]. done.
  - rewrite filter_cons_False; [done|]. rewrite Hu. intros [[] _]. done.
Qed.

End directory.

(** ** Overlapping fetches *)
Section overlapping.
Implicit Types (st : emote_handler.caches) (sys : emote_handler.fetching).

(** A call that no other call interrupts takes at most four steps, and they
    give what [fetch_all_emotes_for_channel] gives. *)
Lemma fetch_uninterrupted (apis : EmoteApis) st channel_name client_id token :
  emote_handler.run_fetches client_id token (replicate 4 (0, apis)) st
    [channel_name]
  = let r := @emote_handler.fetch_all_emotes_for_channel apis st
               channel_name client_id token in
    {| emote_handler.fetch_caches := r.1;
       emote_handler.fetchers :=
         [(channel_name, emote_handler.fetch_returned r.2)] |}.
Proof.
  unfold emote_handler.run_fetches, emote_handler.fetching_step,
    emote_handler.fetch_all_emotes_for_channel.
  destruct st as [cache [g|]]; reflexivity.
Qed.



End overlapping.

(** Two calls that start while the cache is empty both request the global
    mapping, and the answer that arrives last stays in the cache: the call
    for "foo", whose own request was answered with Y, returns Z. *)
Example overlapping_fetches_both_request :
  let sys := emote_handler.run_fetches None None
               [(0, scenario.ffz_only); (1, scenario.ffz_only);
                (0, scenario.ffz_only); (1, scenario.renewed);
                (0, scenario.ffz_only); (0, scenario.ffz_only)]
               {| emote_handler.emote_cache := ∅;
                  emote_handler.seventv_global_cache := None |}
               ["foo"; "bar"] in
  emote_handler.seventv_global_cache (emote_handler.fetch_caches sys)
  = Some {[ "Z" := "https://cdn.7tv.app/Z/1x.webp" ]}
  ∧ emote_handler.fetchers sys
    = [("foo",
        emote_handler.fetch_returned
          ({[ "X" := "https://cdn.frankerfacez.com/X/1" ]}, ∅,
           {[ "Z" := "https://cdn.7tv.app/Z/1x.webp" ]}));
       ("bar", emote_handler.fetch_user_id)].
Proof. split; by vm_compute. Qed.

(** ** More on the merged emote list *)
Section merged.
Context `{Vader} `{!Nltk} `{!EmoteApis} `{!Env}.
Implicit Types (e : twitch_irc.DetectedEmote) (n : string).

(** The guarded append keeps the names distinct and the set of processed
    names equal to the names appended. *)
Lemma add_emote_fold_NoDup (l acc : list twitch_irc.DetectedEmote)
    (seen : gset string) :
  (∀ m, m ∈ seen ↔ m ∈ twitch_irc.name <$> acc) →
  NoDup (twitch_irc.name <$> acc) →
  NoDup (twitch_irc.name <$> (foldl twitch_irc.add_emote (acc, seen) l).1).
Proof.
  revert acc seen. induction l as [|e l IH]; intros acc seen Hseen Hnd.
  - done.
  - simpl. unfold twitch_irc.add_emote at 2. simpl.
    destruct (decide (twitch_irc.name e ∈ seen)) as [Hin|Hout].
    + by apply IH.
    + apply IH.
      * intros m. rewrite fmap_app, elem_of_union, elem_of_app, Hseen.
        simpl. rewrite list_elem_of_singleton, elem_of_singleton. tauto.
      * rewrite fmap_app. apply NoDup_app. split_and!; [done| |].
        -- intros x Hx Hx'. simpl in Hx'.
           apply list_elem_of_singleton in Hx'. subst x.
           by apply Hout, Hseen.
        -- apply NoDup_singleton.
Qed.

Lemma filter_name_nonempty n (l : list twitch_irc.DetectedEmote) :
  n ∈ twitch_irc.name <$> l
  ↔ filter (λ e, twitch_irc.name e = n) l ≠ [].
Proof.
  split.
  - intros Hin Hnil. apply list_elem_of_fmap in Hin as (e0 & -> & He).
    by apply (filter_nil_not_elem_of _ _ e0) in Hnil.
  - intros Hne. destruct (filter _ l) as [|e l'] eqn:Hf; [done|].
    assert (He : e ∈ filter (λ e, twitch_irc.name e = n) l)
      by (rewrite Hf; left).
    apply list_elem_of_filter in He as [<- He].
    by apply list_elem_of_fmap_2.
Qed.

Lemma take_1_nonempty {A} (l : list A) : take 1 l ≠ [] ↔ l ≠ [].
Proof. by destruct l. Qed.

(** X14: the merged list never holds two entries with the same name. *)
Theorem merged_names_distinct sentiment_words native customs :
  NoDup (twitch_irc.name <$>
           twitch_irc.merge_emotes sentiment_words native customs).
Proof.
  unfold twitch_irc.merge_emotes. rewrite <- foldl_app.
  apply add_emote_fold_NoDup; [set_solver | constructor].
Qed.

(** X15: nothing is lost in the merge: a name is in the merged list exactly
    when a native tag or a custom detection reports it. *)
Theorem merged_names_complete sentiment_words native customs n :
  n ∈ twitch_irc.name <$>
        twitch_irc.merge_emotes sentiment_words native customs
  ↔ n ∈ native.*2 ∨ n ∈ emote_handler.name <$> customs.
Proof.
  rewrite filter_name_nonempty, merge_emotes_first, take_1_nonempty.
  rewrite <- filter_name_nonempty, fmap_app, elem_of_app.
  rewrite <- !list_fmap_compose. done.
Qed.

(** X16: every entry of the merged list is the entry of a native tag, of
    type "twitch", or the entry of a custom detection whose name no native
    tag has, of type "custom"; either way its score is the per-token score
    of its name. *)
Theorem merged_entries_classified sentiment_words native customs e :
  e ∈ twitch_irc.merge_emotes sentiment_words native customs →
  twitch_irc.sentiment_score e = sentiment_words !! twitch_irc.name e
  ∧ ((∃ tag, tag ∈ native
        ∧ e = twitch_irc.twitch_entry sentiment_words tag
        ∧ twitch_irc.type e = "twitch")
     ∨ (∃ c, c ∈ customs
          ∧ e = twitch_irc.custom_entry sentiment_words c
          ∧ twitch_irc.type e = "custom"
          ∧ twitch_irc.name e ∉ native.*2)).
Proof.
  intros He.
  assert (Hf : e ∈ filter (λ e', twitch_irc.name e' = twitch_irc.name e)
                 (twitch_irc.merge_emotes sentiment_words native customs))
    by (by apply list_elem_of_filter).
  rewrite merge_emotes_first, filter_app in Hf.
  destruct (filter _ (twitch_irc.twitch_entry sentiment_words <$> native))
    as [|t ts] eqn:Ht.
  - simpl in Hf.
    assert (Hc : e ∈ filter (λ e', twitch_irc.name e' = twitch_irc.name e)
                   (twitch_irc.custom_entry sentiment_words <$> customs)).
    { destruct (filter _ (_ <$> customs)) as [|c cs]; [done|].
      apply list_elem_of_singleton in Hf as ->. left. }
    apply list_elem_of_filter in Hc as [_ (c & -> & Hc)%list_elem_of_fmap].
    split; [done|]. right. exists c. split_and!; [done..|].
    intros (tag & Hn & Htag)%list_elem_of_fmap.
    eapply (filter_nil_not_elem_of _ _
              (twitch_irc.twitch_entry sentiment_words tag)) in Ht.
    + apply Ht. by apply list_elem_of_fmap_2.
    + simpl. by rewrite <- Hn.
  - simpl in Hf. apply list_elem_of_singleton in Hf as <-.
    assert (Hin : e ∈ filter (λ e', twitch_irc.name e' = twitch_irc.name e)
                    (twitch_irc.twitch_entry sentiment_words <$> native))
      by (rewrite Ht; left).
    apply list_elem_of_filter in Hin as [_ (tag & -> & Hin)%list_elem_of_fmap].
    split; [done|]. left. by exists tag.
Qed.

(** X17: a part of the [emotes] tag that does not parse ends the reading of
    the tag: the parts after it are ignored, the native emotes read before
    it are kept. *)
Theorem malformed_part_ends_tag message_content parts bad later :
  twitch_irc.parse_emote_part bad = None →
  twitch_irc.native_tags message_content (parts ++ bad :: later)
  = twitch_irc.native_tags message_content parts.
Proof.
  intros Hbad. induction parts as [|p parts IH]; simpl.
  - by rewrite Hbad.
  - destruct (twitch_irc.parse_emote_part p) as [[[i a] b]|]; [|done].
    by rewrite IH.
Qed.

(** When every part parses, every part gives a native emote. *)
Lemma native_tags_all_parsed message_content parts :
  (∀ p, p ∈ parts → is_Some (twitch_irc.parse_emote_part p)) →
  length (twitch_irc.native_tags message_content parts) = length parts.
Proof.
  induction parts as [|p parts IH]; intros Hall; [done|]. simpl.
  destruct (Hall p ltac:(left)) as [[[i a] b] ->]. simpl.
  rewrite IH; [done|]. intros q Hq. apply Hall. by right.
Qed.

(** X18: [event_message] emits an event exactly for a message that is not
    an echo and has content. The event is then delivered to the subscribers
    of the bot's channel whose send does not fail, each getting the same
    event, and these remain subscribed; for another message the process is
    left as it is and nothing is delivered. *)
Theorem event_message_delivery send_fails (st : twitch_irc.backend)
    ref bot message :
  twitch_irc.bots st !! ref = Some bot →
  let h := twitch_irc.event_message send_fails st ref message in
  let alive :=
    filter (λ c, send_fails c = false)
      (websocket_manager.subscribers (twitch_irc.active_connections st)
         (Py.lower (twitch_irc.streamer_channel bot))) in
  (is_Some (twitch_irc.emitted h)
   ↔ twitch_irc.echo message = false ∧ twitch_irc.content message ≠ "")
  ∧ (∀ ev, twitch_irc.emitted h = Some ev →
       twitch_irc.delivered h = (λ ws, (ws, ev)) <$> alive
       ∧ websocket_manager.subscribers
           (twitch_irc.active_connections (twitch_irc.after h))
           (Py.lower (twitch_irc.streamer_channel bot))
         = alive)
  ∧ (twitch_irc.emitted h = None →
     twitch_irc.after h = st ∧ twitch_irc.delivered h = []).
Proof.
  intros Hbot. cbv zeta. unfold twitch_irc.event_message. rewrite Hbot.
  destruct (twitch_irc.enrich _ bot message) as [ev|] eqn:Hen; simpl.
  - split_and!.
    + split; [intros _|eauto].
      unfold twitch_irc.enrich, twitch_irc.event_message_with in Hen.
      destruct (twitch_irc.echo message); [done|].
      by destruct (twitch_irc.content message).
    + intros ev' [= <-].
      destruct (broadcast_to_streamer_alive send_fails
                  (twitch_irc.streamer_channel bot)
                  (twitch_irc.active_connections st)) as (Hd & Hs & _).
      by rewrite Hd, Hs.
    + done.
  - split_and!; [|done..].
    split; [by intros []|]. intros [Hecho Hcontent].
    destruct (event_message_with_payload
                (λ text, Py.Returned
                   (nlp_processor.analyze_sentiment
                      (twitch_irc.emote_sentiment_scores st) text))
                (twitch_irc.emote_sentiment_scores st) bot message
                Hecho Hcontent) as (payload & Hp & _).
    unfold twitch_irc.enrich in Hen. congruence.
Qed.

End merged.

(** ** More on the life cycle of a bot *)
Section lifecycle_more.
Context `{Vader} `{!Nltk} `{!EmoteApis} `{!Env}.
Implicit Types (st : twitch_irc.backend).


(** What [start_twitch_bot] does, by the state of [active_bots]. *)
Lemma start_twitch_bot_running send_fails streamer_name st bot :
  twitch_irc.active_bots st !! Py.lower streamer_name = Some bot →
  let r := twitch_irc.start_twitch_bot send_fails streamer_name st in
  r.2 = twitch_irc.start_returned bot
  ∧ twitch_irc.bots r.1 = twitch_irc.bots st
  ∧ twitch_irc.active_bots r.1 = twitch_irc.active_bots st.
Proof.
  intros Hb. unfold twitch_irc.start_twitch_bot, twitch_irc.start_step.
  rewrite Hb. simpl. by rewrite Hb.
Qed.

Lemma start_twitch_bot_new send_fails streamer_name st :
  Py.truthy TWITCH_ACCESS_TOKEN = true →
  twitch_irc.active_bots st !! Py.lower streamer_name = None →
  let r := twitch_irc.start_twitch_bot send_fails streamer_name st in
  r.2 = twitch_irc.start_returned (length (twitch_irc.bots st))
  ∧ twitch_irc.bots r.1
    = twitch_irc.bots st
        ++ [twitch_irc.TwitchBot_init (Py.lower streamer_name)]
  ∧ twitch_irc.active_bots r.1
    = <[Py.lower streamer_name := length (twitch_irc.bots st)]>
        (twitch_irc.active_bots st)
  ∧ twitch_irc.active_connections r.1 = twitch_irc.active_connections st.
Proof.
  intros Htok Hnone.
  unfold twitch_irc.start_twitch_bot, twitch_irc.start_step.
  rewrite Hnone, Htok. simpl negb. cbv iota.
  by rewrite create_bot_with_token.
Qed.

(** Without a token the call ends in the constructor, which raises: no bot
    is constructed and none is registered. *)
Lemma start_twitch_bot_anonymous send_fails streamer_name st :
  Py.truthy TWITCH_ACCESS_TOKEN = false →
  twitch_irc.active_bots st !! Py.lower streamer_name = None →
  let r := twitch_irc.start_twitch_bot send_fails streamer_name st in
  r.2 = twitch_irc.start_raised
  ∧ twitch_irc.bots r.1 = twitch_irc.bots st
  ∧ twitch_irc.active_bots r.1 = twitch_irc.active_bots st
  ∧ twitch_irc.active_connections r.1
    = (websocket_manager.broadcast_to_streamer send_fails
         (Py.lower streamer_name) (twitch_irc.active_connections st)).1.
Proof.
  intros Htok Hnone.
  unfold twitch_irc.start_twitch_bot, twitch_irc.start_step.
  rewrite Hnone, Htok. simpl negb. cbv iota. simpl.
  by rewrite create_bot_anonymous.
Qed.

(** X19: run one after the other, two calls of [start_twitch_bot] for a
    channel that has a bot, or with a token set, return the same bot, and the
    second call constructs nothing and leaves [active_bots] as the first call
    left it. For a channel without a bot and without a token the first call
    raises, and no bot is constructed or registered. *)
Theorem start_twitch_bot_twice send_fails send_fails' streamer_name st :
  let r1 := twitch_irc.start_twitch_bot send_fails streamer_name st in
  let r2 := twitch_irc.start_twitch_bot send_fails' streamer_name r1.1 in
  (is_Some (twitch_irc.active_bots st !! Py.lower streamer_name)
   ∨ Py.truthy TWITCH_ACCESS_TOKEN = true →
   (∃ bot, r1.2 = twitch_irc.start_returned bot
           ∧ twitch_irc.active_bots r1.1 !! Py.lower streamer_name = Some bot)
   ∧ r2.2 = r1.2
   ∧ twitch_irc.bots r2.1 = twitch_irc.bots r1.1
   ∧ twitch_irc.active_bots r2.1 = twitch_irc.active_bots r1.1)
  ∧ (twitch_irc.active_bots st !! Py.lower streamer_name = None →
     Py.truthy TWITCH_ACCESS_TOKEN = false →
     r1.2 = twitch_irc.start_raised
     ∧ twitch_irc.bots r1.1 = twitch_irc.bots st
     ∧ twitch_irc.active_bots r1.1 = twitch_irc.active_bots st).
Proof.
  cbv zeta. split.
  - intros Hcan.
    assert (Hfirst : ∃ bot,
      (twitch_irc.start_twitch_bot send_fails streamer_name st).2
        = twitch_irc.start_returned bot
      ∧ twitch_irc.active_bots
          (twitch_irc.start_twitch_bot send_fails streamer_name st).1
        !! Py.lower streamer_name = Some bot).
    { destruct (twitch_irc.active_bots st !! Py.lower streamer_name)
        as [bot|] eqn:Hb.
      - destruct (start_twitch_bot_running send_fails streamer_name st bot Hb)
          as (Hr & _ & Ha). exists bot. by rewrite Hr, Ha.
      - destruct Hcan as [[? ?]|Htok]; [done|].
        destruct (start_twitch_bot_new send_fails streamer_name st Htok Hb)
          as (Hr & _ & Ha & _). eexists. rewrite Hr, Ha. split; [done|].
        apply lookup_insert_eq. }
    destruct Hfirst as (bot & Hr & Ha). split; [eauto|].
    destruct (start_twitch_bot_running send_fails' streamer_name _ bot Ha)
      as (Hr2 & Hb2 & Ha2).
    by rewrite Hr2, Hr.
  - intros Hnone Htok.
    by destruct (start_twitch_bot_anonymous send_fails streamer_name st
                   Htok Hnone) as (? & ? & ? & _).
Qed.

Lemma stop_twitch_bot_known close_raises streamer_name st bot :
  twitch_irc.active_bots st !! Py.lower streamer_name = Some bot →
  let r := twitch_irc.stop_twitch_bot close_raises streamer_name st in
  r.2 = twitch_irc.stop_returned (negb (close_raises bot))
  ∧ twitch_irc.active_bots r.1
    = delete (Py.lower streamer_name) (twitch_irc.active_bots st)
  ∧ twitch_irc.bots r.1
    = (if close_raises bot
       then alter twitch_irc.begin_stop bot (twitch_irc.bots st)
       else alter twitch_irc.finish_stop bot
              (alter twitch_irc.begin_stop bot (twitch_irc.bots st)))
  ∧ twitch_irc.active_connections r.1 = twitch_irc.active_connections st.
Proof.
  intros Hb.
  unfold twitch_irc.stop_twitch_bot, twitch_irc.stop_step, twitch_irc.stop_pop.
  rewrite Hb. simpl. by destruct (close_raises bot).
Qed.

Lemma stop_twitch_bot_unknown close_raises streamer_name st :
  twitch_irc.active_bots st !! Py.lower streamer_name = None →
  twitch_irc.stop_twitch_bot close_raises streamer_name st
  = (st, twitch_irc.stop_returned false).
Proof.
  intros Hb.
  unfold twitch_irc.stop_twitch_bot, twitch_irc.stop_step, twitch_irc.stop_pop.
  by rewrite Hb.
Qed.

(** X20: with a token set, starting a bot for a channel that has none and
    stopping it again gives back [active_bots]. The stop returns True and the
    new bot ends closed when its [close()] returns, and returns False when
    [close()] raises; the bots that existed before are not touched, and a
    second stop finds no bot and returns False. *)
Theorem start_then_stop send_fails close_raises streamer_name st :
  Py.truthy TWITCH_ACCESS_TOKEN = true →
  twitch_irc.active_bots st !! Py.lower streamer_name = None →
  let r1 := twitch_irc.start_twitch_bot send_fails streamer_name st in
  let r2 := twitch_irc.stop_twitch_bot close_raises streamer_name r1.1 in
  let bot := length (twitch_irc.bots st) in
  r1.2 = twitch_irc.start_returned bot
  ∧ r2.2 = twitch_irc.stop_returned (negb (close_raises bot))
  ∧ twitch_irc.active_bots r2.1 = twitch_irc.active_bots st
  ∧ (close_raises bot = false →
     twitch_irc.connector <$> twitch_irc.bots r2.1 !! bot
     = Some twitch_irc.closed)
  ∧ (∀ i, i < bot → twitch_irc.bots r2.1 !! i = twitch_irc.bots st !! i)
  ∧ ∀ close_raises',
      (twitch_irc.stop_twitch_bot close_raises' streamer_name r2.1).2
      = twitch_irc.stop_returned false.
Proof.
  intros Htok Hnone. cbv zeta.
  destruct (start_twitch_bot_new send_fails streamer_name st Htok Hnone)
    as (Hret & Hbots & Hact & _).
  assert (Hb : twitch_irc.active_bots
                 (twitch_irc.start_twitch_bot send_fails streamer_name st).1
               !! Py.lower streamer_name
               = Some (length (twitch_irc.bots st)))
    by (rewrite Hact; apply lookup_insert_eq).
  destruct (stop_twitch_bot_known close_raises streamer_name _ _ Hb)
    as (Hr & Hact2 & Hbots2 & _).
  assert (Hback : twitch_irc.active_bots
                    (twitch_irc.stop_twitch_bot close_raises streamer_name
                       (twitch_irc.start_twitch_bot
                          send_fails streamer_name st).1).1
                  = twitch_irc.active_bots st).
  { rewrite Hact2, Hact, delete_insert_eq. by apply delete_id. }
  split_and!.
  - done.
  - done.
  - done.
  - intros Hclose. rewrite Hbots2, Hclose, Hbots, !list_lookup_alter_eq.
    rewrite lookup_app_r, Nat.sub_diag by done. done.
  - intros i Hi. rewrite Hbots2, Hbots.
    destruct (close_raises _);
      rewrite !list_lookup_alter_ne by lia; by apply lookup_app_l.
  - intros close_raises'. rewrite stop_twitch_bot_unknown; [done|].
    by rewrite Hback.
Qed.

(** X21: the number of active bots goes up by one when a bot is started,
    with a token set, for a channel that has none; it is the same when the
    start raises for want of a token, and when the channel has a bot; and it
    goes down by one when the bot of a channel is stopped, whether its
    [close()] returns or raises. *)
Theorem active_bot_count send_fails close_raises streamer_name st :
  (twitch_irc.active_bots st !! Py.lower streamer_name = None →
   twitch_irc.get_active_bot_count
     (twitch_irc.start_twitch_bot send_fails streamer_name st).1
   = if Py.truthy TWITCH_ACCESS_TOKEN
     then S (twitch_irc.get_active_bot_count st)
     else twitch_irc.get_active_bot_count st)
  ∧ (is_Some (twitch_irc.active_bots st !! Py.lower streamer_name) →
     twitch_irc.get_active_bot_count
       (twitch_irc.start_twitch_bot send_fails streamer_name st).1
     = twitch_irc.get_active_bot_count st
     ∧ S (twitch_irc.get_active_bot_count
            (twitch_irc.stop_twitch_bot close_raises streamer_name st).1)
       = twitch_irc.get_active_bot_count st).
Proof.
  unfold twitch_irc.get_active_bot_count. split.
  - intros Hnone. destruct (Py.truthy TWITCH_ACCESS_TOKEN) eqn:Htok.
    + destruct (start_twitch_bot_new send_fails streamer_name st Htok Hnone)
        as (_ & _ & -> & _). by apply map_size_insert_None.
    + by destruct (start_twitch_bot_anonymous send_fails streamer_name st
                     Htok Hnone) as (_ & _ & -> & _).
  - intros [bot Hb].
    destruct (start_twitch_bot_running send_fails streamer_name st bot Hb)
      as (_ & _ & ->).
    destruct (stop_twitch_bot_known close_raises streamer_name st bot Hb)
      as (_ & -> & _). split; [done|].
    rewrite map_size_delete, Hb.
    assert (size (twitch_irc.active_bots st) ≠ 0); [|simpl; lia].
    intros Hz%map_size_empty_inv. by rewrite Hz in Hb.
Qed.



End lifecycle_more.

(** ** The emote tag *)
Section emote_tag.

Lemma split_on_pieces sep s piece :
  piece ∈ Py.split_on sep s →
  Py.all_chars (λ c, negb (Ascii.eqb c sep)) piece = true.
Proof.
  revert piece. induction s as [|c s IH]; intros piece Hp; simpl in Hp.
  - by apply list_elem_of_singleton in Hp as ->.
  - destruct (Ascii.eqb c sep) eqn:Hc.
    + apply elem_of_cons in Hp as [->|Hp]; [done|by apply IH].
    + destruct (Py.split_on sep s) as [|w ws].
      * apply list_elem_of_singleton in Hp as ->. simpl. by rewrite Hc.
      * apply elem_of_cons in Hp as [->|Hp].
        -- simpl. rewrite Hc. simpl. apply IH. left.
        -- apply IH. by right.
Qed.

Lemma split_once_parts sep s a b :
  Py.split_once sep s = Some (a, b) →
  s = a +:+ String sep b
  ∧ Py.all_chars (λ c, negb (Ascii.eqb c sep)) a = true.
Proof.
  revert a. induction s as [|c s IH]; intros a Hs; simpl in Hs; [done|].
  destruct (Ascii.eqb c sep) eqn:Hc.
  - injection Hs as <- <-. apply Ascii.eqb_eq in Hc as ->. done.
  - destruct (Py.split_once sep s) as [[a' b']|]; [|done].
    injection Hs as <- <-. destruct (IH a' eq_refl) as [-> Ha].
    split; [done|]. simpl. by rewrite Hc.
Qed.

Lemma all_chars_rev_app p s t :
  Py.all_chars p (String.rev_app s t) = Py.all_chars p s && Py.all_chars p t.
Proof.
  revert t. induction s as [|c s IH]; intros t; [done|]. simpl.
  rewrite IH. simpl. by destruct (p c), (Py.all_chars p s).
Qed.

Lemma all_chars_lstrip p q s :
  Py.all_chars p s = true → Py.all_chars p (Py.lstrip_by q s) = true.
Proof.
  induction s as [|c s IH]; [done|]. simpl.
  destruct (q c); [|done]. intros [_ Hs]%andb_prop. by apply IH.
Qed.

Lemma all_chars_strip p q s :
  Py.all_chars p s = true → Py.all_chars p (Py.strip_by q s) = true.
Proof.
  intros Hs. unfold Py.strip_by, String.rev.
  rewrite all_chars_rev_app, andb_true_r. apply all_chars_lstrip.
  rewrite all_chars_rev_app, andb_true_r. by apply all_chars_lstrip.
Qed.

Lemma all_chars_map_chars p f s :
  (∀ c, p c = true → p (f c) = true) →
  Py.all_chars p s = true → Py.all_chars p (Py.map_chars f s) = true.
Proof.
  intros Hf. induction s as [|c s IH]; [done|]. simpl.
  intros [Hc Hs]%andb_prop. by rewrite (Hf c Hc), IH.
Qed.

Lemma digit_nonneg c d : Py.digit c = Some d → (0 ≤ d)%Z.
Proof.
  unfold Py.digit. destruct (_ && _)%N; [|done]. intros [= <-]. lia.
Qed.

Lemma int_digits_nonneg s acc after_digit z :
  (0 ≤ acc)%Z → Py.int_digits s acc after_digit = Some z → (0 ≤ z)%Z.
Proof.
  revert acc after_digit. induction s as [|c s IH]; intros acc b Hacc Hz.
  - simpl in Hz. destruct b; [|done]. by injection Hz as <-.
  - simpl in Hz. destruct (Ascii.eqb c "_").
    + destruct b; [|done]. by eapply IH.
    + destruct (Py.digit c) as [d|] eqn:Hd; [|done].
      apply digit_nonneg in Hd. eapply IH; [|done]. lia.
Qed.

Lemma int_literal_nonneg r z : Py.int_literal r = Some z → (0 ≤ z)%Z.
Proof.
  unfold Py.int_literal. destruct (_ <? _)%N; [done|].
  by apply int_digits_nonneg.
Qed.

(** [int] of a text without a minus sign is not negative. *)
Lemma int_nonneg s z :
  Py.all_chars (λ c, negb (Ascii.eqb c "-")) s = true →
  Py.int s = Some z → (0 ≤ z)%Z.
Proof.
  intros Hs. unfold Py.int.
  set (t := if Py.all_chars _ s then s else Py.map_chars _ s).
  assert (Ht : Py.all_chars (λ c, negb (Ascii.eqb c "-")) t = true).
  { unfold t. destruct (Py.all_chars (λ c, (Py.ord c <? 128)%N) s); [done|].
    apply all_chars_map_chars; [|done]. intros c Hc.
    by destruct ((127 <=? Py.ord c)%N && Py.isspace c). }
  apply (all_chars_strip _ Py.c_isspace) in Ht.
  destruct (Py.strip_by Py.c_isspace t) as [|c r];
    [apply int_literal_nonneg|].
  destruct c as [[] [] [] [] [] [] [] []];
    first [ discriminate Ht
          | cbv beta iota; apply int_literal_nonneg ].
Qed.

(** X24: an [emotes] part that parses has the form [id:ranges] with no colon
    in the id, and the two bounds read from it are not negative: the emote
    name is cut out of the message counting from its start. *)
Theorem parse_emote_part_bounds emote_part emote_id start end_ :
  twitch_irc.parse_emote_part emote_part = Some (emote_id, start, end_) →
  (0 ≤ start)%Z ∧ (0 ≤ end_)%Z
  ∧ Py.all_chars (λ c, negb (Ascii.eqb c ":")) emote_id = true
  ∧ ∃ ranges, emote_part = emote_id +:+ String ":" ranges.
Proof.
  unfold twitch_irc.parse_emote_part. intros Hp.
  destruct (Py.split_once ":" emote_part) as [[i ranges]|] eqn:Hs; [|done].
  apply split_once_parts in Hs as [-> Hi].
  destruct (Py.split_on "-" _) as [|a [|b [|c l]]] eqn:Hpieces; try done.
  assert (Ha : Py.all_chars (λ c, negb (Ascii.eqb c "-")) a = true).
  { apply (split_on_pieces _ (default "" (head (Py.split_on "," ranges)))).
    rewrite Hpieces. left. }
  assert (Hb : Py.all_chars (λ c, negb (Ascii.eqb c "-")) b = true).
  { apply (split_on_pieces _ (default "" (head (Py.split_on "," ranges)))).
    rewrite Hpieces. right. left. }
  destruct (Py.int a) as [x|] eqn:Hx; [|done].
  destruct (Py.int b) as [y|] eqn:Hy; [|done].
  injection Hp as <- <- <-. split_and!.
  - exact (int_nonneg a x Ha Hx).
  - exact (int_nonneg b y Hb Hy).
  - done.
  - by exists ranges.
Qed.

End emote_tag.

(** ** Entering and leaving a channel *)
Section sessions.
Context `{Vader} `{!Nltk} `{!EmoteApis} `{!Env}.
Implicit Types (st : twitch_irc.backend).

Lemma create_bot_keys k st :
  Py.lower k = k →
  Py.lowercase_keys (twitch_irc.active_bots st) →
  Py.lowercase_keys (twitch_irc.active_bots (twitch_irc.create_bot k st).1).
Proof.
  intros Hk Hm. unfold twitch_irc.create_bot.
  destruct (twitch_irc.new_TwitchBot k); [|done].
  by apply lowercase_keys_insert.
Qed.

(** X25: the keys of [active_bots] stay in lower case: if they all are, they
    all are after any step of [start_twitch_bot] and of [stop_twitch_bot],
    whatever the case of the name. *)
Theorem active_bots_keys_lowercase st :
  Py.lowercase_keys (twitch_irc.active_bots st) →
  ∀ send_fails close_raises streamer_name,
    (∀ pc, Py.lowercase_keys
             (twitch_irc.active_bots
                (twitch_irc.start_step send_fails streamer_name st pc).1))
    ∧ (∀ pc, Py.lowercase_keys
               (twitch_irc.active_bots
                  (twitch_irc.stop_step close_raises streamer_name st pc).1)).
Proof.
  intros Hm f g n. split.
  - intros pc. unfold twitch_irc.start_step. destruct pc; simpl; try done.
    + destruct (twitch_irc.active_bots st !! Py.lower n); [done|].
      destruct (Py.truthy TWITCH_ACCESS_TOKEN); simpl; [|done].
      apply create_bot_keys; auto using lower_idemp.
    + by destruct (twitch_irc.active_bots st !! Py.lower n).
    + apply create_bot_keys; auto using lower_idemp.
  - intros pc. unfold twitch_irc.stop_step, twitch_irc.stop_pop.
    destruct pc as [|bot|]; simpl; try done.
    + destruct (twitch_irc.active_bots st !! Py.lower n); [|done].
      simpl. by apply lowercase_keys_delete.
    + by destruct (g bot).
Qed.

(** X26: a client opens a channel nobody follows and for which no bot runs,
    and leaves again: the registry and [active_bots] are then as they were
    before it came, whether the client's own send works or fails. With a
    token set the client got a new bot, whose stop has begun; without a token
    the start raised, no bot was constructed and the stop finds none. *)
Theorem open_then_cleanup send_fails websocket streamer_name st :
  Py.truthy (Py.strip (Py.lower streamer_name)) = true →
  twitch_irc.active_connections st !! Py.strip (Py.lower streamer_name)
    = None →
  twitch_irc.active_bots st !! Py.strip (Py.lower streamer_name) = None →
  let r1 := main.websocket_open send_fails true websocket streamer_name st in
  let r2 := main.websocket_cleanup websocket streamer_name r1.1 in
  let bot := length (twitch_irc.bots st) in
  twitch_irc.active_connections r2.1 = twitch_irc.active_connections st
  ∧ twitch_irc.active_bots r2.1 = twitch_irc.active_bots st
  ∧ (Py.truthy TWITCH_ACCESS_TOKEN = true →
     r1.2 = Some (twitch_irc.start_returned bot)
     ∧ r2.2 = Some (twitch_irc.stop_closing bot))
  ∧ (Py.truthy TWITCH_ACCESS_TOKEN = false →
     r1.2 = Some twitch_irc.start_raised
     ∧ r2.2 = Some (twitch_irc.stop_returned false)
     ∧ twitch_irc.bots r2.1 = twitch_irc.bots st).
Proof.
  intros Hk Hconn Hbot. cbv zeta.
  unfold main.websocket_open, main.websocket_cleanup.
  set (k := Py.strip (Py.lower streamer_name)) in *.
  assert (Hlow : Py.lower k = k)
    by (unfold k; by rewrite lower_strip, lower_idemp).
  rewrite Hk. simpl negb. cbv iota.
  unfold websocket_manager.connect. rewrite Hlow, Hconn. simpl.
  set (conns0 := twitch_irc.active_connections st).
  set (conns1 := <[k := [websocket]]> conns0).
  assert (Hin1 : conns1 !! k = Some [websocket])
    by apply lookup_insert_eq.
  assert (Hin0 : conns0 !! k = None) by done.
  assert (Hleave : ∀ conns, conns = conns1 ∨ conns = conns0 →
    websocket_manager.disconnect websocket k conns = conns0).
  { intros conns [-> | ->]; unfold websocket_manager.disconnect;
      rewrite Hlow.
    - rewrite Hin1. simpl. rewrite decide_True by done.
      unfold conns1. rewrite delete_insert_eq. by apply delete_id.
    - by rewrite Hin0. }
  assert (Hsent : ∀ conns, conns = conns1 ∨ conns = conns0 →
    (websocket_manager.broadcast_to_streamer send_fails k conns).1 = conns1
    ∨ (websocket_manager.broadcast_to_streamer send_fails k conns).1
      = conns0).
  { intros conns [-> | ->]; unfold websocket_manager.broadcast_to_streamer;
      rewrite Hlow.
    - rewrite Hin1. simpl. destruct (send_fails websocket) eqn:Hf.
      + right. rewrite filter_cons_True by done. simpl.
        apply Hleave. by left.
      + left. by rewrite filter_cons_False by (by rewrite Hf).
    - right. by rewrite Hin0. }
  set (st1 := twitch_irc.set_connections st conns1).
  assert (Hbot1 : twitch_irc.active_bots st1 !! Py.lower k = None)
    by by rewrite Hlow.
  destruct (Py.truthy TWITCH_ACCESS_TOKEN) eqn:Htok.
  - destruct (start_twitch_bot_new send_fails k st1 Htok Hbot1)
      as (Hret & Hbots & Hact & Hc).
    rewrite Hret, Hlow in *. simpl.
    rewrite Hc. simpl. rewrite Hleave by (by left).
    rewrite Hin0.
    unfold twitch_irc.stop_pop. rewrite Hlow. simpl.
    rewrite Hact, lookup_insert_eq. simpl.
    split_and!; [done| |done|done].
    rewrite delete_insert_eq. by apply delete_id.
  - destruct (start_twitch_bot_anonymous send_fails k st1 Htok Hbot1)
      as (Hret & Hbots & Hact & Hc).
    rewrite Hret, Hlow in *. simpl.
    rewrite Hc. simpl.
    assert (Hfinal :
      websocket_manager.disconnect websocket k
        (websocket_manager.broadcast_to_streamer send_fails k
           (websocket_manager.broadcast_to_streamer send_fails k conns1).1).1
      = conns0).
    { apply Hleave. apply Hsent. apply Hsent. by left. }
    rewrite Hfinal, Hin0.
    unfold twitch_irc.stop_pop. rewrite Hlow. simpl.
    rewrite Hact. simpl. rewrite Hbot. simpl.
    by rewrite Hbots.
Qed.

Lemma shutdown_event_snoc close_raises schedule i streamer_names st :
  main.shutdown_event close_raises (schedule ++ [i]) streamer_names st
  = main.shutdown_step close_raises
      (main.shutdown_event close_raises schedule streamer_names st) i.
Proof. unfold main.shutdown_event. by rewrite foldl_app. Qed.

Lemma finish_stop_closed (l : list twitch_irc.TwitchBot) b b' bot :
  (∀ bot0, l !! b = Some bot0 → b ≠ b' →
     twitch_irc.connector bot0 = twitch_irc.closed) →
  alter twitch_irc.finish_stop b' l !! b = Some bot →
  twitch_irc.connector bot = twitch_irc.closed.
Proof.
  intros Hc. destruct (decide (b' = b)) as [->|Hne].
  - rewrite list_lookup_alter_eq. destruct (l !! b); [|done].
    by intros [= <-].
  - rewrite list_lookup_alter_ne by done. intros Hl. by eapply Hc.
Qed.

(** What holds at every moment of the shutdown: the gathered calls keep
    their names, bots are neither made nor lost, entries only leave
    [active_bots], a call that has passed its entry has left no entry for
    its channel, and every bot registered at the beginning whose [close()]
    does not raise is still registered, or being closed by a call, or
    closed. *)
Lemma shutdown_progress close_raises schedule streamer_names st :
  let sys := main.shutdown_event close_raises schedule streamer_names st in
  (main.shutdown_tasks sys).*1 = streamer_names
  ∧ length (twitch_irc.bots (main.stopping sys))
    = length (twitch_irc.bots st)
  ∧ (∀ k b,
       twitch_irc.active_bots (main.stopping sys) !! k = Some b →
       twitch_irc.active_bots st !! k = Some b)
  ∧ (∀ i name pc,
       main.shutdown_tasks sys !! i = Some (name, pc) →
       pc ≠ twitch_irc.stop_entry →
       twitch_irc.active_bots (main.stopping sys) !! Py.lower name = None)
  ∧ (∀ k b,
       twitch_irc.active_bots st !! k = Some b →
       close_raises b = false →
       twitch_irc.active_bots (main.stopping sys) !! k = Some b
       ∨ (∃ i name,
            main.shutdown_tasks sys !! i
            = Some (name, twitch_irc.stop_closing b))
       ∨ (∀ bot,
            twitch_irc.bots (main.stopping sys) !! b = Some bot →
            twitch_irc.connector bot = twitch_irc.closed)).
Proof.
  cbv zeta. induction schedule as [|i schedule IH] using rev_ind.
  - unfold main.shutdown_event. simpl. split_and!; [|done|done| |by left].
    + rewrite <- list_fmap_compose. apply list_fmap_id.
    + intros i name pc Hi Hpc.
      apply list_lookup_fmap_Some in Hi as (x & ? & ?). by simplify_eq.
  - rewrite shutdown_event_snoc.
    destruct (main.shutdown_event close_raises schedule streamer_names st)
      as [cur tasks]. simpl in IH.
    destruct IH as (Hnames & Hlen & Hsub & Hgone & Hall).
    unfold main.shutdown_step. simpl.
    destruct (tasks !! i) as [[name pc]|] eqn:Hi; [|done]. simpl.
    assert (Hkeep : (<[i := name]> tasks.*1) = streamer_names).
    { rewrite list_insert_id; [done|].
      by rewrite list_lookup_fmap, Hi. }
    assert (Hother : ∀ pc' j name' pc0,
      <[i := (name, pc')]> tasks !! j = Some (name', pc0) →
      pc0 ≠ twitch_irc.stop_entry →
      twitch_irc.active_bots cur !! Py.lower name = None →
      twitch_irc.active_bots cur !! Py.lower name' = None).
    { intros pc' j name' pc0 Hj Hpc0 Hnone.
      destruct (decide (j = i)) as [->|Hne].
      - rewrite list_lookup_insert_eq in Hj by (by eapply lookup_lt_Some).
        by injection Hj as <- <-.
      - rewrite list_lookup_insert_ne in Hj by done. by eapply Hgone. }
    assert (Hstill : ∀ pc' j name' b,
      tasks !! j = Some (name', twitch_irc.stop_closing b) →
      j ≠ i →
      ∃ j' name'',
        <[i := (name, pc')]> tasks !! j'
        = Some (name'', twitch_irc.stop_closing b)).
    { intros pc' j name' b Hj Hne. exists j, name'.
      by rewrite list_lookup_insert_ne. }
    destruct pc as [|b'|stopped]; unfold twitch_irc.stop_step.
    + unfold twitch_irc.stop_pop.
      destruct (twitch_irc.active_bots cur !! Py.lower name)
        as [b'|] eqn:Hb'; simpl.
      * split_and!.
        -- by rewrite list_fmap_insert.
        -- by rewrite length_alter.
        -- intros k b [_ Hk]%lookup_delete_Some. by apply Hsub.
        -- intros j name' pc' Hj Hpc'.
           destruct (decide (j = i)) as [->|Hne].
           ++ rewrite list_lookup_insert_eq in Hj
                by (by eapply lookup_lt_Some).
              injection Hj as <- <-. apply lookup_delete_eq.
           ++ rewrite list_lookup_insert_ne in Hj by done.
              apply lookup_delete_None. right. by eapply Hgone.
        -- intros k b Hk Hclose.
           destruct (decide (b = b')) as [->|Hb].
           { right. left. exists i, name.
             apply list_lookup_insert_eq. by eapply lookup_lt_Some. }
           destruct (Hall k b Hk Hclose)
             as [Hreg | [(j & name' & Hj) | Hclosed]].
           ++ left. rewrite lookup_delete_ne; [done|].
              intros <-. rewrite Hb' in Hreg. by injection Hreg as <-.
           ++ right. left. eapply Hstill; [done|].
              intros ->. by rewrite Hi in Hj.
           ++ right. right. intros bot.
              rewrite list_lookup_alter_ne by done. apply Hclosed.
      * split_and!.
        -- by rewrite list_fmap_insert.
        -- done.
        -- done.
        -- intros j name' pc' Hj Hpc'. by eapply Hother.
        -- intros k b Hk Hclose.
           destruct (Hall k b Hk Hclose)
             as [Hreg | [(j & name' & Hj) | Hclosed]].
           ++ by left.
           ++ right. left. eapply Hstill; [done|].
              intros ->. by rewrite Hi in Hj.
           ++ by right; right.
    + assert (Hnone : twitch_irc.active_bots cur !! Py.lower name = None)
        by by eapply Hgone.
      destruct (close_raises b') eqn:Hraises; simpl.
      * split_and!.
        -- by rewrite list_fmap_insert.
        -- done.
        -- done.
        -- intros j name' pc' Hj Hpc'. by eapply Hother.
        -- intros k b Hk Hclose.
           destruct (Hall k b Hk Hclose)
             as [Hreg | [(j & name' & Hj) | Hclosed]].
           ++ by left.
           ++ right. left. eapply Hstill; [done|].
              intros ->. rewrite Hi in Hj. simplify_eq.
              by rewrite Hraises in Hclose.
           ++ by right; right.
      * split_and!.
        -- by rewrite list_fmap_insert.
        -- by rewrite length_alter.
        -- done.
        -- intros j name' pc' Hj Hpc'. by eapply Hother.
        -- intros k b Hk Hclose.
           destruct (Hall k b Hk Hclose)
             as [Hreg | [(j & name' & Hj) | Hclosed]].
           ++ by left.
           ++ destruct (decide (j = i)) as [->|Hne].
              ** right. right. intros bot. rewrite Hi in Hj.
                 simplify_eq. rewrite list_lookup_alter_eq.
                 destruct (twitch_irc.bots cur !! b); [|done].
                 by intros [= <-].
              ** right. left. by eapply Hstill.
           ++ right. right. intros bot. apply finish_stop_closed.
              intros bot0 Hl _. by apply Hclosed.
    + assert (Hnone : twitch_irc.active_bots cur !! Py.lower name = None)
        by by eapply Hgone.
      simpl. split_and!.
      * by rewrite list_fmap_insert.
      * done.
      * done.
      * intros j name' pc' Hj Hpc'. by eapply Hother.
      * intros k b Hk Hclose.
        destruct (Hall k b Hk Hclose)
          as [Hreg | [(j & name' & Hj) | Hclosed]].
        -- by left.
        -- right. left. eapply Hstill; [done|].
           intros ->. by rewrite Hi in Hj.
        -- by right; right.
Qed.

(** X27: the shutdown empties [active_bots]. If its keys are in lower case
    and [streamer_names] lists them all, then, in whatever order the event
    loop runs the gathered [stop_twitch_bot] calls, once all of them have
    returned no bot is active, and every bot that was active and whose
    [close()] does not raise is closed. *)
Theorem shutdown_stops_all close_raises schedule streamer_names st :
  Py.lowercase_keys (twitch_irc.active_bots st) →
  (∀ k, is_Some (twitch_irc.active_bots st !! k) → k ∈ streamer_names) →
  main.gathered
    (main.shutdown_event close_raises schedule streamer_names st) →
  let sys := main.shutdown_event close_raises schedule streamer_names st in
  twitch_irc.active_bots (main.stopping sys) = ∅
  ∧ twitch_irc.get_active_bot_count (main.stopping sys) = 0
  ∧ ∀ k b,
      twitch_irc.active_bots st !! k = Some b →
      b < length (twitch_irc.bots st) →
      close_raises b = false →
      twitch_irc.connector <$> twitch_irc.bots (main.stopping sys) !! b
      = Some twitch_irc.closed.
Proof.
  intros Hlow Hall Hdone. cbv zeta.
  destruct (shutdown_progress close_raises schedule streamer_names st)
    as (Hnames & Hlen & Hsub & Hgone & Hbots).
  assert (Hempty :
    twitch_irc.active_bots
      (main.stopping
         (main.shutdown_event close_raises schedule streamer_names st))
    = ∅).
  { apply map_eq. intros k. rewrite lookup_empty.
    apply eq_None_not_Some. intros [b Hb].
    pose proof (Hsub k b Hb) as Hb0.
    assert (Hin : k ∈ streamer_names) by (apply Hall; by rewrite Hb0).
    rewrite <- Hnames in Hin.
    apply list_elem_of_fmap in Hin as ([name pc] & -> & Hin). simpl in *.
    destruct (Hdone name pc Hin) as [stopped ->].
    apply list_elem_of_lookup in Hin as [i Hi].
    rewrite <- (Hlow name b Hb0) in Hb.
    by rewrite (Hgone i name _ Hi) in Hb. }
  split_and!.
  - done.
  - unfold twitch_irc.get_active_bot_count. rewrite Hempty.
    apply map_size_empty.
  - intros k b Hb Hlt Hclose.
    rewrite <- Hlen in Hlt.
    destruct (lookup_lt_is_Some_2 _ _ Hlt) as [bot Hbot].
    rewrite Hbot. simpl. f_equal.
    destruct (Hbots k b Hb Hclose) as [Hreg | [(j & name' & Hj) | Hclosed]].
    + by rewrite Hempty in Hreg.
    + apply list_elem_of_lookup_2 in Hj.
      by destruct (Hdone _ _ Hj) as [? ?].
    + by apply Hclosed.
Qed.

End sessions.

(** ** Tokens *)
Section tokens.
Context `{PyFloat}.
Implicit Types (scores : gmap string float).

Lemma rev_app_nonempty s t : t ≠ "" → String.rev_app s t ≠ "".
Proof.
  revert t. induction s as [|c s IH]; intros t Ht; [done|]. simpl.
  by apply IH.
Qed.

(** A token of [split] is not empty and has no white space in it. *)
Lemma split_go_tokens cur s w :
  Py.all_chars (λ c, negb (Py.isspace c)) cur = true →
  w ∈ Py.split_go cur s →
  w ≠ "" ∧ Py.all_chars (λ c, negb (Py.isspace c)) w = true.
Proof.
  assert (Hcur : ∀ cur w,
    Py.all_chars (λ c, negb (Py.isspace c)) cur = true →
    w ∈ (if Py.truthy cur then [String.rev cur] else []) →
    w ≠ "" ∧ Py.all_chars (λ c, negb (Py.isspace c)) w = true).
  { intros [|c cur'] w' Hc Hw; simpl in Hw; [by apply elem_of_nil in Hw|].
    apply list_elem_of_singleton in Hw as ->. split.
    - unfold String.rev. simpl. by apply rev_app_nonempty.
    - unfold String.rev. by rewrite all_chars_rev_app, Hc. }
  revert cur. induction s as [|c s IH]; intros cur Hc Hw; simpl in Hw.
  - by apply (Hcur cur).
  - destruct (Py.isspace c) eqn:Hsp.
    + apply elem_of_app in Hw as [Hw|Hw]; [by apply (Hcur cur)|].
      by apply (IH "").
    + apply (IH (String c cur)); [|done]. simpl. by rewrite Hsp.
Qed.

(** X28: a detected emote is a token of the text: its name is not empty and
    has no white space in it. An emote whose name in the directory contains
    white space is never detected. *)
Theorem detected_names_are_tokens scores text ffz seventv glob
    (e : emote_handler.EmoteData) :
  e ∈ emote_handler.detect_emotes_in_message scores text ffz seventv glob →
  emote_handler.name e ≠ ""
  ∧ Py.all_chars (λ c, negb (Py.isspace c)) (emote_handler.name e) = true.
Proof.
  intros He.
  assert (Hn : emote_handler.name e ∈ Py.split text).
  { rewrite detect_emotes_flat in He.
    apply list_elem_of_bind in He as (w & He & Hw).
    unfold emote_handler.detect_word in He.
    destruct (_ !! w); [|by apply elem_of_nil in He].
    destruct (scores !! w); [|by apply elem_of_nil in He].
    by apply list_elem_of_singleton in He as ->. }
  by apply (split_go_tokens "" text).
Qed.

End tokens.

(** ** Leaving a channel that others follow *)
Section leaving.
Context `{Vader} `{!Nltk} `{!EmoteApis} `{!Env}.

Lemma list_remove_other (ws other : nat) (l rest : list nat) :
  Py.list_remove ws l = Some rest → other ∈ l → other ≠ ws → other ∈ rest.
Proof.
  revert rest. induction l as [|y l IH]; intros rest Hr Hin Hne; [done|].
  simpl in Hr. destruct (decide (ws = y)) as [->|Hy].
  - injection Hr as <-. by apply elem_of_cons in Hin as [?|?].
  - destruct (Py.list_remove ws l) as [rest'|]; [|done].
    injection Hr as <-. apply elem_of_cons in Hin as [->|Hin]; [left|].
    right. by apply IH.
Qed.

(** X29: when a client leaves a channel that another client still follows,
    the bot is kept: no stop is requested, the bots and [active_bots] are as
    before, and the other client is still subscribed. *)
Theorem cleanup_keeps_bot websocket other streamer_name
    (st : twitch_irc.backend) :
  other ∈ websocket_manager.subscribers (twitch_irc.active_connections st)
            (Py.strip (Py.lower streamer_name)) →
  other ≠ websocket →
  let r := main.websocket_cleanup websocket streamer_name st in
  r.2 = None
  ∧ twitch_irc.bots r.1 = twitch_irc.bots st
  ∧ twitch_irc.active_bots r.1 = twitch_irc.active_bots st
  ∧ other ∈ websocket_manager.subscribers (twitch_irc.active_connections r.1)
              (Py.strip (Py.lower streamer_name)).
Proof.
  intros Hin Hne. cbv zeta. unfold main.websocket_cleanup.
  set (k := Py.strip (Py.lower streamer_name)) in *.
  assert (Hlow : Py.lower k = k)
    by (unfold k; by rewrite lower_strip, lower_idemp).
  assert (Hafter : ∃ l,
    websocket_manager.disconnect websocket k (twitch_irc.active_connections st)
      !! k = Some l ∧ other ∈ l).
  { unfold websocket_manager.subscribers in Hin.
    unfold websocket_manager.disconnect. rewrite Hlow.
    destruct (twitch_irc.active_connections st !! k) as [l|] eqn:Hl;
      [|by apply elem_of_nil in Hin].
    simpl in Hin.
    destruct (Py.list_remove websocket l) as [rest|] eqn:Hr; [|eauto].
    pose proof (list_remove_other _ _ _ _ Hr Hin Hne) as Hrest.
    destruct rest as [|c rest]; [by apply elem_of_nil in Hrest|].
    exists (c :: rest). by rewrite lookup_insert_eq. }
  destruct Hafter as (l & Hl & Hother). simpl. rewrite Hl. simpl.
  split_and!; [done..|].
  unfold websocket_manager.subscribers. by rewrite Hl.
Qed.

End leaving.

(** ** The order of the keywords *)
Section keyword_order.

Lemma insert_by_count_sorted e (l : list (string * nat)) :
  StronglySorted (λ a b, b.2 ≤ a.2) l →
  StronglySorted (λ a b, b.2 ≤ a.2) (nlp_processor.insert_by_count e l).
Proof.
  induction l as [|e' l IH]; intros Hl; simpl.
  - repeat constructor.
  - apply StronglySorted_inv in Hl as [Hl Hall].
    destruct (e'.2 <? e.2) eqn:Hlt.
    + apply Nat.ltb_lt in Hlt. constructor.
      * by constructor.
      * constructor; [lia|]. eapply Forall_impl; [done|]. simpl. lia.
    + apply Nat.ltb_ge in Hlt. constructor; [by apply IH|].
      rewrite insert_by_count_perm. by constructor.
Qed.

Lemma sorted_by_count (fd acc : list (string * nat)) :
  StronglySorted (λ a b, b.2 ≤ a.2) acc →
  StronglySorted (λ a b, b.2 ≤ a.2)
    (foldl (λ sorted e, nlp_processor.insert_by_count e sorted) acc fd).
Proof.
  revert acc. induction fd as [|e fd IH]; intros acc Hacc; [done|].
  simpl. by apply IH, insert_by_count_sorted.
Qed.

Lemma StronglySorted_take_le (R : relation (string * nat)) n l :
  StronglySorted R l → StronglySorted R (take n l).
Proof.
  revert n. induction l as [|x l IH]; intros n Hl; [by destruct n|].
  destruct n as [|n]; [constructor|]. simpl.
  apply StronglySorted_inv in Hl as [Hl Hall]. constructor; [by apply IH|].
  eapply Forall_forall. intros y Hy. eapply Forall_forall in Hall; [done|].
  eapply elem_of_take in Hy as (i & Hy & _). by eapply list_elem_of_lookup_2.
Qed.

(** X30: [most_common] lists entries of the frequency distribution, the
    larger counts first. *)
Theorem most_common_sorted n (keywords : list string) :
  let top := nlp_processor.most_common n (nlp_processor.FreqDist keywords) in
  StronglySorted (λ a b, b.2 ≤ a.2) top
  ∧ top ⊆ nlp_processor.FreqDist keywords.
Proof.
  cbv zeta. unfold nlp_processor.most_common. split.
  - apply StronglySorted_take_le, sorted_by_count. constructor.
  - intros x Hx. apply elem_of_take in Hx as (i & Hx & _).
    apply list_elem_of_lookup_2 in Hx.
    by rewrite sorted_by_count_perm, app_nil_r in Hx.
Qed.

End keyword_order.

(** ** Instances of the properties above *)

(** [catalog_score_has_precedence] for Kappa in "hello Kappa LUL". *)
Lemma catalog_score_has_precedence_witness :
  (@nlp_processor.analyze_sentiment _ scenario.calm_vader
     scenario.catalog "hello Kappa LUL").2 !! "Kappa"
  = Some 300%Z.
Proof.
  apply (@catalog_score_has_precedence _ scenario.calm_vader).
  - vm_compute. right. left.
  - left. vm_compute. reflexivity.
Defined.

(** [token_scores_sound] for the token "great", scored by VADER. *)
Lemma token_scores_sound_witness : "great" ∈ Py.split "great play LUL".
Proof.
  apply (@token_scores_sound _ scenario.calm_vader scenario.catalog
           "great play LUL" "great" 600%Z).
  vm_compute. reflexivity.
Defined.

(** [compound_score_when_scorer_works] for "great play". *)
Lemma compound_score_when_scorer_works_witness :
  (@nlp_processor.analyze_sentiment _ scenario.calm_vader
     scenario.catalog "great play").1
  = Some 600%Z.
Proof.
  apply (@compound_score_when_scorer_works _ scenario.calm_vader
           scenario.catalog "great play" 600%Z).
  - discriminate.
  - reflexivity.
  - intros w _. eexists. reflexivity.
Defined.

(** [load_last_row_wins] for a file that names Kappa twice. *)
Lemma load_last_row_wins_witness :
  @nlp_processor.load_emote_sentiment_scores scenario.milli
    (Some ([(Some "Kappa", Some "100")]
           ++ (Some "Kappa", Some "300") :: [(Some "LUL", Some "700")]))
    ∅
  !! "Kappa"
  = Some 300%Z.
Proof.
  apply (@load_last_row_wins scenario.milli).
  - reflexivity.
  - reflexivity.
  - vm_compute. reflexivity.
  - intros row Hrow. apply list_elem_of_singleton in Hrow as ->. discriminate.
Defined.

(** [merged_entries_classified] for the one native tag of a message. *)
Lemma merged_entries_classified_witness :
  twitch_irc.sentiment_score
    (@twitch_irc.twitch_entry scenario.plain ∅ ("25", "Kappa"))
  = (∅ : gmap string Z) !! "Kappa".
Proof.
  apply (@merged_entries_classified scenario.plain ∅ [("25", "Kappa")] []).
  vm_compute. left.
Defined.

(** [malformed_part_ends_tag] for a tag with a part that is no range. *)
Lemma malformed_part_ends_tag_witness :
  twitch_irc.native_tags "hello Kappa" (["25:6-10"] ++ "garbage" :: ["1:0-4"])
  = twitch_irc.native_tags "hello Kappa" ["25:6-10"].
Proof. apply malformed_part_ends_tag. vm_compute. reflexivity. Defined.

(** [event_message_delivery] for "hello Kappa LUL" on "foo". *)
Lemma event_message_delivery_witness :
  is_Some
    (twitch_irc.emitted
       (@twitch_irc.event_message _ scenario.calm_vader scenario.no_nltk
          (λ _, false) scenario.foo_backend 0 scenario.kappa_message))
  ↔ twitch_irc.echo scenario.kappa_message = false
    ∧ twitch_irc.content scenario.kappa_message ≠ "".
Proof.
  apply (@event_message_delivery _ scenario.calm_vader scenario.no_nltk
           (λ _, false) scenario.foo_backend 0 scenario.foo_bot
           scenario.kappa_message).
  reflexivity.
Defined.

(** [start_then_stop] for "foo" when nothing runs, with a token and a
    [close()] that returns. *)
Lemma start_then_stop_witness :
  (twitch_irc.stop_twitch_bot (λ _, false) "foo"
     (@twitch_irc.start_twitch_bot _ scenario.with_token (λ _, false) "foo"
        scenario.idle_backend).1).2
  = twitch_irc.stop_returned true.
Proof.
  destruct (@start_then_stop _ scenario.with_token (λ _, false) (λ _, false)
              "foo" scenario.idle_backend) as (_ & Hstop & _).
  - reflexivity.
  - vm_compute. reflexivity.
  - exact Hstop.
Defined.




(** [parse_emote_part_bounds] for the part "25:6-10". *)
Lemma parse_emote_part_bounds_witness : (0 ≤ 6)%Z ∧ (0 ≤ 10)%Z.
Proof.
  destruct (parse_emote_part_bounds "25:6-10" "25" 6 10) as (Ha & Hb & _).
  - vm_compute. reflexivity.
  - by split.
Defined.

(** [active_bots_keys_lowercase] for a start of "BAR" beside "foo". *)
Lemma active_bots_keys_lowercase_witness :
  Py.lowercase_keys
    (twitch_irc.active_bots
       (@twitch_irc.start_step _ scenario.with_token (λ _, false) "BAR"
          scenario.foo_backend twitch_irc.start_entry).1).
Proof.
  assert (Hkeys : Py.lowercase_keys
                    (twitch_irc.active_bots scenario.foo_backend)).
  { intros k v Hl. simpl in Hl.
    by apply lookup_singleton_Some in Hl as [<- _]. }
  apply (@active_bots_keys_lowercase _ scenario.with_token
           scenario.foo_backend Hkeys (λ _, false) (λ _, false) "BAR").
Defined.

(** [open_then_cleanup] for a first client on " Foo ", with a token. *)
Lemma open_then_cleanup_witness :
  twitch_irc.active_bots
    (main.websocket_cleanup 1 " Foo "
       (@main.websocket_open _ scenario.with_token (λ _, false) true 1 " Foo "
          scenario.idle_backend).1).1
  = twitch_irc.active_bots scenario.idle_backend.
Proof.
  destruct (@open_then_cleanup _ scenario.with_token (λ _, false) 1 " Foo "
              scenario.idle_backend) as (_ & Hbots & _).
  - reflexivity.
  - vm_compute. reflexivity.
  - vm_compute. reflexivity.
  - exact Hbots.
Defined.

(** [shutdown_stops_all] with the bot of "foo" running: the one gathered
    call takes its two steps. *)
Lemma shutdown_stops_all_witness :
  twitch_irc.active_bots
    (main.stopping
       (main.shutdown_event (λ _, false) [0; 0] ["foo"] scenario.foo_backend))
  = ∅.
Proof.
  apply shutdown_stops_all.
  - intros k v Hl. simpl in Hl. by apply lookup_singleton_Some in Hl as [<- _].
  - intros k [v Hl]. simpl in Hl. apply lookup_singleton_Some in Hl as [<- _].
    left.
  - intros name pc Hin. vm_compute in Hin.
    apply list_elem_of_singleton in Hin. injection Hin as -> ->. by eexists.
Defined.

(** [detected_names_are_tokens] for LUL in "nice LUL". *)
Lemma detected_names_are_tokens_witness :
  "LUL" ≠ "" ∧ Py.all_chars (λ c, negb (Py.isspace c)) "LUL" = true.
Proof.
  apply (@detected_names_are_tokens scenario.plain {[ "LUL" := 700%Z ]}
           "nice LUL" {[ "LUL" := "u1" ]} ∅ ∅
           (@emote_handler.Build_EmoteData scenario.plain "LUL" "u1"
              (Some 700%Z))).
  vm_compute. left.
Defined.

(** [cleanup_keeps_bot] when client 1 leaves "foo" and client 2 stays. *)
Lemma cleanup_keeps_bot_witness :
  (main.websocket_cleanup 1 "foo"
     (twitch_irc.set_connections scenario.foo_backend {[ "foo" := [1; 2] ]})).2
  = None.
Proof.
  apply (@cleanup_keeps_bot scenario.milli 1 2 "foo"
           (twitch_irc.set_connections scenario.foo_backend
              {[ "foo" := [1; 2] ]})).
  - vm_compute. right. left.
  - discriminate.
Defined.
